(** * Earth Physics Sandbox: the simulation core, embedded in Rocq

    A shallow embedding of [js/materials.js], [js/simulation.js],
    [js/physics.js] and [js/interactions.js].

    Conventions of the embedding:
    - JavaScript numbers that hold integers (coordinates, material ids,
      life counters, temperatures, the frame counter) are [Z]; the values
      drawn from [Math.random()] and the colour components computed from
      them are rationals ([Q]);
    - the grid, physics and interaction code computes with coordinates
      next to a cell of the grid and with counters, where the arithmetic
      of doubles is exact; the drawing functions compute with arguments
      of any size, and there every result is rounded as a double is
      ([to_double]);
    - whether the host provides the buffer of the colour cache is an
      argument of the constructor ([allocates]);
    - an object property that may be absent is an [option];
    - the grid is a [list] of cells indexed by [y * width + x], the colour
      cache a [list] of bytes, and the [Set] of dynamic cells a list of
      indices in insertion order (the order in which a JavaScript [Set]
      is iterated);
    - [Math.random()] is a global effect: the world threads a source of
      draws together with the number of draws made so far;
    - a read of the cell array is a total lookup: every read of the source
      follows a bounds check, and in a simulation made by the constructor
      an in-bounds index is below the length of the array ([index_lt]), so
      the default of the lookup is never what a read returns. *)

From Stdlib Require Import String ZArith QArith Qround Lia.
From stdpp Require Import base list numbers.
Local Open Scope Z_scope.

(** ** Cells *)

Module Cell.

(** A grid cell is the object [{ id, life, temperature }]; the synthetic
    boundary cell of [getCell] is [{ id, immovable: true }], so [life] and
    [temperature] may be absent.  [updated] is the stamp read by
    [PhysicsEngine.update]. *)
Record t := mk {
  id : Z;
  life : option Z;
  temperature : option Z;
  updated : option Z;
  immovable : bool }.

End Cell.

#[global] Instance cell_inhabited : Inhabited Cell.t :=
  populate (Cell.mk 0 None None None false).

(** ** The simulation object and the world around it *)

Record Simulation := mkSimulation {
  width : Z;
  height : Z;
  grid : list Cell.t;
  colorCache : list Z;
  dynamicCells : list nat;
  frameCount : Z;
  particleCount : Z }.

Record World := mkWorld {
  sim : Simulation;
  random_source : nat -> Q;
  random_calls : nat }.

(** ** A state monad over the world *)

Definition M (A : Type) : Type := World -> A * World.

Definition ret {A} (a : A) : M A := fun w => (a, w).

Definition bind {A B} (m : M A) (k : A -> M B) : M B :=
  fun w => let (a, w') := m w in k a w'.

Notation "x <- m ;; k" := (bind m (fun x => k))
  (at level 100, m at next level, right associativity).
Notation "m ;; k" := (bind m (fun _ => k))
  (at level 100, right associativity).

Definition gets {A} (f : Simulation -> A) : M A :=
  fun w => (f (sim w), w).

Definition modify (f : Simulation -> Simulation) : M unit :=
  fun w => (tt, mkWorld (f (sim w)) (random_source w) (random_calls w)).

(** [Math.random()] *)
Definition Math_random : M Q :=
  fun w => (random_source w (random_calls w),
            mkWorld (sim w) (random_source w) (S (random_calls w))).

Definition when (b : bool) (m : M unit) : M unit :=
  if b then m else ret tt.

(** [for (const a of l) body(a)] *)
Fixpoint for_each {A} (l : list A) (body : A -> M unit) : M unit :=
  match l with
  | [] => ret tt
  | a :: l' => body a ;; for_each l' body
  end.

(** A loop whose body may execute [return true]: the body answers [true]
    when it returned from the enclosing function, and the loop answers
    [false] when it ran to its end. *)
Fixpoint for_return {A} (l : list A) (body : A -> M bool) : M bool :=
  match l with
  | [] => ret false
  | a :: l' => r <- body a ;; if r then ret true else for_return l' body
  end.

Definition run {A} (m : M A) (w : World) : World := snd (m w).

(** Comparisons of JavaScript numbers. *)
Definition Qltb (a b : Q) : bool := negb (Qle_bool b a).
Definition Qgtb (a b : Q) : bool := Qltb b a.

(** ** Materials ([js/materials.js]) *)

Module MATERIAL.
Definition AIR : Z := 0.
Definition STONE : Z := 1.
Definition DIRT : Z := 2.
Definition SAND : Z := 3.
Definition CLAY : Z := 4.
Definition METAL : Z := 5.
Definition ICE : Z := 6.
Definition WATER : Z := 10.
Definition MUD : Z := 11.
Definition OIL : Z := 12.
Definition LAVA : Z := 13.
Definition STEAM : Z := 20.
Definition SMOKE : Z := 21.
Definition GAS : Z := 22.
Definition GRASS : Z := 30.
Definition PLANT : Z := 31.
Definition WOOD : Z := 32.
Definition CHARCOAL : Z := 33.
Definition FIRE : Z := 40.
Definition ELECTRICITY : Z := 41.
Definition EXPLOSION : Z := 42.
End MATERIAL.

Module STATE.
Inductive t := SOLID | POWDER | LIQUID | GAS | ENERGY.
Definition eqb (a b : t) : bool :=
  match a, b with
  | SOLID, SOLID | POWDER, POWDER | LIQUID, LIQUID
  | GAS, GAS | ENERGY, ENERGY => true
  | _, _ => false
  end.
End STATE.

Definition RGB : Type := Q * Q * Q.

(** [mat.color] is either an array or a function drawing from
    [Math.random()]. *)
Inductive Color :=
| Fixed (rgb : RGB)
| Procedural (sample : M RGB).

Definition is_function (c : Color) : bool :=
  match c with Procedural _ => true | Fixed _ => false end.

Definition clamp255 (z : Z) : Q := inject_Z (Z.max 0 (Z.min 255 z)).

(** [colorVariant(base, variance = 10)] *)
Definition colorVariant (base : Z * Z * Z) (variance : Z) : Color :=
  Procedural (
    r <- Math_random ;;
    let v := Qfloor (r * inject_Z variance * 2) - variance in
    let '(b0, b1, b2) := base in
    ret (clamp255 (b0 + v), clamp255 (b1 + v), clamp255 (b2 + v))).

Definition fireColor : M RGB :=
  r <- Math_random ;;
  g <- Math_random ;;
  b <- Math_random ;;
  ret (inject_Z (200 + Qfloor (r * 55)),
       inject_Z (Qfloor (g * 150)),
       inject_Z (Qfloor (b * 50))).

Definition lavaColor : M RGB :=
  r <- Math_random ;;
  g <- Math_random ;;
  ret (inject_Z (200 + Qfloor (r * 55)),
       inject_Z (50 + Qfloor (g * 100)),
       0%Q).

Definition electricityColor : M RGB :=
  i <- Math_random ;;
  let intensity : Q := if Qgtb i 0.5 then 255%Q else 200%Q in
  b <- Math_random ;;
  ret (intensity, intensity, inject_Z (Qfloor (b * 100))).

Definition explosionColor : M RGB :=
  g <- Math_random ;;
  b <- Math_random ;;
  ret (255, 200 + g * 55, b * 100)%Q.

Module Mat.

(** Properties that only some material definitions carry. *)
Inductive optional :=
| Immovable | Conductive | Ignites | Glows | Dissipates | Explosive
| SupportGrass | Sticky | Grows | Spreads | NeedsWater
| Viscosity (v : Z) | Lifetime (n : Z) | Force (f : Z)
| MeltsTo (m : Z) | MeltTemp (c : Z)
| EvaporatesTo (m : Z) | EvaporateTemp (c : Z)
| CondensesTo (m : Z) | CondenseTemp (c : Z)
| BurnsTo (m : Z) | BurnTemp (c : Z)
| Produces (m : Z).

Record t := mk {
  id : Z;
  name : string;
  color : Color;
  density : Z;
  state : STATE.t;
  flammable : bool;
  temperature : Z;
  conductivity : Q;
  more : list optional }.

Definition has (p : optional -> bool) (m : t) : bool := existsb p (more m).

Fixpoint find {A} (p : optional -> option A) (l : list optional) : option A :=
  match l with
  | [] => None
  | o :: l' => match p o with Some a => Some a | None => find p l' end
  end.

Definition immovable : t -> bool :=
  has (fun o => match o with Immovable => true | _ => false end).
Definition conductive : t -> bool :=
  has (fun o => match o with Conductive => true | _ => false end).
Definition ignites : t -> bool :=
  has (fun o => match o with Ignites => true | _ => false end).
Definition dissipates : t -> bool :=
  has (fun o => match o with Dissipates => true | _ => false end).
Definition viscosity (m : t) : option Z :=
  find (fun o => match o with Viscosity v => Some v | _ => None end) (more m).
Definition lifetime (m : t) : option Z :=
  find (fun o => match o with Lifetime v => Some v | _ => None end) (more m).
Definition force (m : t) : option Z :=
  find (fun o => match o with Force v => Some v | _ => None end) (more m).
Definition meltTemp (m : t) : option Z :=
  find (fun o => match o with MeltTemp v => Some v | _ => None end) (more m).
Definition condensesTo (m : t) : option Z :=
  find (fun o => match o with CondensesTo v => Some v | _ => None end) (more m).
Definition produces (m : t) : option Z :=
  find (fun o => match o with Produces v => Some v | _ => None end) (more m).

End Mat.

(** [a || b] on numbers: [a] unless it is absent or zero. *)
Definition num_or (a : option Z) (b : Z) : Z :=
  match a with
  | Some v => if v =? 0 then b else v
  | None => b
  end.

(** A number used as a condition: present and not zero. *)
Definition truthy (a : option Z) : bool :=
  match a with
  | Some v => negb (v =? 0)
  | None => false
  end.

Import MATERIAL.

Definition MATERIALS_table : list Mat.t := [
  Mat.mk AIR "Air" (Fixed (10, 10, 20)%Q) 0 STATE.GAS false 20 0.01 [];
  (* solids *)
  Mat.mk STONE "Stone" (colorVariant (85, 85, 85) 15) 100 STATE.SOLID
    false 20 0.3 [Mat.Immovable];
  Mat.mk DIRT "Dirt" (colorVariant (110, 80, 40) 12) 60 STATE.POWDER
    false 20 0.2 [Mat.SupportGrass];
  Mat.mk SAND "Sand" (colorVariant (210, 190, 140) 15) 50 STATE.POWDER
    false 20 0.15 [];
  Mat.mk CLAY "Clay" (colorVariant (140, 100, 70) 10) 70 STATE.SOLID
    false 20 0.25 [Mat.Sticky];
  Mat.mk METAL "Metal" (colorVariant (120, 130, 150) 8) 150 STATE.SOLID
    false 20 0.9 [Mat.Conductive];
  Mat.mk ICE "Ice" (colorVariant (180, 220, 255) 10) 35 STATE.SOLID
    false (-10) 0.5 [Mat.MeltsTo WATER; Mat.MeltTemp 0];
  (* liquids *)
  Mat.mk WATER "Water" (colorVariant (50, 130, 200) 15) 40 STATE.LIQUID
    false 20 0.6
    [Mat.Viscosity 1; Mat.Conductive; Mat.EvaporatesTo STEAM;
     Mat.EvaporateTemp 100];
  Mat.mk MUD "Mud" (colorVariant (70, 55, 40) 8) 55 STATE.LIQUID
    false 20 0.3 [Mat.Viscosity 8];
  Mat.mk OIL "Oil" (colorVariant (40, 35, 25) 5) 30 STATE.LIQUID
    true 20 0.1 [Mat.Viscosity 3; Mat.BurnTemp 150];
  Mat.mk LAVA "Lava" (Procedural lavaColor) 90 STATE.LIQUID
    false 1200 0.8 [Mat.Viscosity 12; Mat.Glows; Mat.Ignites];
  (* gases *)
  Mat.mk STEAM "Steam" (colorVariant (200, 210, 220) 10) (-20) STATE.GAS
    false 100 0.05
    [Mat.CondensesTo WATER; Mat.CondenseTemp 80; Mat.Lifetime 300];
  Mat.mk SMOKE "Smoke" (colorVariant (60, 60, 65) 10) (-15) STATE.GAS
    false 80 0.02 [Mat.Lifetime 200; Mat.Dissipates];
  Mat.mk GAS "Gas" (colorVariant (150, 220, 150) 20) (-10) STATE.GAS
    true 20 0.02 [Mat.Explosive; Mat.BurnTemp 50];
  (* organic *)
  Mat.mk GRASS "Grass" (colorVariant (50, 140, 50) 20) 25 STATE.SOLID
    true 20 0.1 [Mat.BurnTemp 200; Mat.Grows];
  Mat.mk PLANT "Plant" (colorVariant (70, 180, 70) 25) 20 STATE.SOLID
    true 20 0.1 [Mat.BurnTemp 180; Mat.Spreads; Mat.NeedsWater];
  Mat.mk WOOD "Wood" (colorVariant (120, 80, 40) 15) 35 STATE.SOLID
    true 20 0.15 [Mat.BurnTemp 250; Mat.BurnsTo CHARCOAL];
  Mat.mk CHARCOAL "Charcoal" (colorVariant (35, 35, 40) 5) 25 STATE.POWDER
    true 20 0.2 [Mat.BurnTemp 400];
  (* energy *)
  Mat.mk FIRE "Fire" (Procedural fireColor) (-30) STATE.ENERGY
    false 600 0.1
    [Mat.Lifetime 60; Mat.Produces SMOKE; Mat.Glows; Mat.Ignites];
  Mat.mk ELECTRICITY "Electricity" (Procedural electricityColor) 0
    STATE.ENERGY false 50 1 [Mat.Lifetime 5; Mat.Glows; Mat.Ignites];
  Mat.mk EXPLOSION "Explosion" (Procedural explosionColor) 0 STATE.ENERGY
    false 2000 0
    [Mat.Lifetime 3; Mat.Force 10; Mat.Glows; Mat.Ignites]
].

(** [MATERIALS[id]] *)
Definition MATERIALS (id : Z) : option Mat.t :=
  List.find (fun m => Mat.id m =? id) MATERIALS_table.

Definition AIR_material : Mat.t :=
  Mat.mk AIR "Air" (Fixed (10, 10, 20)%Q) 0 STATE.GAS false 20 0.01 [].

(** [getMaterial(id)]: [MATERIALS[id] || MATERIALS[MATERIAL.AIR]] *)
Definition getMaterial (id : Z) : Mat.t :=
  match MATERIALS id with
  | Some m => m
  | None => AIR_material
  end.

(** [getColor(id)] *)
Definition getColor (id : Z) : M RGB :=
  match Mat.color (getMaterial id) with
  | Procedural sample => sample
  | Fixed rgb => ret rgb
  end.

(** ** The simulation ([js/simulation.js]) *)

(** Conversion performed by a store into a [Uint8ClampedArray]: clamp to
    [0, 255] and round to the nearest integer, ties to even. *)
Definition ToUint8Clamp (q : Q) : Z :=
  if Qle_bool q 0 then 0
  else if Qle_bool 255 q then 255
  else
    let f := Qfloor q in
    let half := (inject_Z f + 0.5)%Q in
    if Qltb half q then f + 1
    else if Qltb q half then f
    else if Z.even f then f else f + 1.

(** The guard [x < 0 || x >= this.width || y < 0 || y >= this.height]. *)
Definition out_of_range (s : Simulation) (x y : Z) : bool :=
  (x <? 0) || (x >=? width s) || (y <? 0) || (y >=? height s).

(** [inBounds(x, y)] *)
Definition inBounds (x y : Z) (s : Simulation) : bool :=
  (x >=? 0) && (x <? width s) && (y >=? 0) && (y <? height s).

(** [y * this.width + x] *)
Definition index (s : Simulation) (x y : Z) : nat :=
  Z.to_nat (y * width s + x).

Definition air_cell : Cell.t := Cell.mk AIR (Some 0) (Some 20) None false.

(** [{ id: MATERIAL.STONE, immovable: true }] *)
Definition boundary_cell : Cell.t := Cell.mk STONE None None None true.

Definition with_grid (g : list Cell.t) (s : Simulation) : Simulation :=
  mkSimulation (width s) (height s) g (colorCache s) (dynamicCells s)
    (frameCount s) (particleCount s).

Definition with_colorCache (c : list Z) (s : Simulation) : Simulation :=
  mkSimulation (width s) (height s) (grid s) c (dynamicCells s)
    (frameCount s) (particleCount s).

Definition with_dynamicCells (d : list nat) (s : Simulation) : Simulation :=
  mkSimulation (width s) (height s) (grid s) (colorCache s) d
    (frameCount s) (particleCount s).

Definition with_frameCount (n : Z) (s : Simulation) : Simulation :=
  mkSimulation (width s) (height s) (grid s) (colorCache s)
    (dynamicCells s) n (particleCount s).

Definition with_particleCount (n : Z) (s : Simulation) : Simulation :=
  mkSimulation (width s) (height s) (grid s) (colorCache s)
    (dynamicCells s) (frameCount s) n.

(** The [Set] of dynamic cells, in insertion order. *)
Definition set_has (i : nat) (d : list nat) : bool := bool_decide (i ∈ d).
Definition set_add (i : nat) (d : list nat) : list nat :=
  if set_has i d then d else d ++ [i].
Definition set_delete (i : nat) (d : list nat) : list nat :=
  filter (fun j => j ≠ i) d.

(** Stores of one colour into the cache at [colorIdx = idx * 4]. *)
Definition store_rgb (idx : nat) (c : RGB) (cache : list Z) : list Z :=
  let '(r, g, b) := c in
  let colorIdx := (idx * 4)%nat in
  <[(colorIdx + 2)%nat := ToUint8Clamp b]>
    (<[(colorIdx + 1)%nat := ToUint8Clamp g]>
      (<[colorIdx := ToUint8Clamp r]> cache)).

Definition store_rgba (idx : nat) (c : RGB) (cache : list Z) : list Z :=
  <[(idx * 4 + 3)%nat := 255]> (store_rgb idx c cache).

(** [getCell(x, y)] *)
Definition getCell (x y : Z) (s : Simulation) : Cell.t :=
  if out_of_range s x y then boundary_cell
  else grid s !!! index s x y.

(** The optional fourth argument of [setCell], [{}] when omitted, as the
    overrides it can carry for the [life] and [temperature] of the new
    cell.  No caller in the repository passes it. *)
Record Props := mkProps {
  props_life : option Z;
  props_temperature : option Z }.

Definition no_props : Props := mkProps None None.

Definition override (p : option Z) (v : Z) : option Z :=
  match p with Some v' => Some v' | None => Some v end.

(** [typeof mat.color === 'function' ? mat.color() : mat.color] *)
Definition sample_color (mat : Mat.t) : M RGB :=
  match Mat.color mat with
  | Procedural sample => sample
  | Fixed rgb => ret rgb
  end.

(** [setCell(x, y, materialId, props = {})] *)
Definition setCell (x y materialId : Z) (props : Props) : M unit :=
  oob <- gets (fun s => out_of_range s x y) ;;
  if oob then ret tt else
  idx <- gets (fun s => index s x y) ;;
  oldId <- gets (fun s => Cell.id (grid s !!! idx)) ;;
  (if (oldId =? AIR) && negb (materialId =? AIR) then
     modify (fun s => with_particleCount (particleCount s + 1) s)
   else if negb (oldId =? AIR) && (materialId =? AIR) then
     modify (fun s => with_particleCount (particleCount s - 1) s)
   else ret tt) ;;
  let mat := getMaterial materialId in
  modify (fun s => with_grid
    (<[idx := Cell.mk materialId
         (override (props_life props) (num_or (Mat.lifetime mat) 0))
         (override (props_temperature props)
            (num_or (Some (Mat.temperature mat)) 20))
         None false]> (grid s)) s) ;;
  (if is_function (Mat.color mat) then
     modify (fun s => with_dynamicCells (set_add idx (dynamicCells s)) s)
   else
     modify (fun s => with_dynamicCells (set_delete idx (dynamicCells s)) s)) ;;
  color <- sample_color mat ;;
  modify (fun s => with_colorCache (store_rgba idx color (colorCache s)) s).

(** A read of the colour cache; outside the array a typed array reads
    [undefined], which a later store turns into 0. *)
Definition byte_at (cache : list Z) (i : nat) : Z := default 0 (cache !! i).

(** [swap(x1, y1, x2, y2)] *)
Definition swap (x1 y1 x2 y2 : Z) (s : Simulation) : Simulation :=
  if out_of_range s x1 y1 then s else
  if out_of_range s x2 y2 then s else
  let idx1 := index s x1 y1 in
  let idx2 := index s x2 y2 in
  (* swap grid cells *)
  let temp := grid s !!! idx1 in
  let g := <[idx1 := grid s !!! idx2]> (grid s) in
  let g := <[idx2 := temp]> g in
  (* swap colours in the cache *)
  let colorIdx1 := (idx1 * 4)%nat in
  let colorIdx2 := (idx2 * 4)%nat in
  let c := colorCache s in
  let r1 := byte_at c colorIdx1 in
  let g1 := byte_at c (colorIdx1 + 1) in
  let b1 := byte_at c (colorIdx1 + 2) in
  let c := <[colorIdx1 := byte_at c colorIdx2]> c in
  let c := <[(colorIdx1 + 1)%nat := byte_at c (colorIdx2 + 1)]> c in
  let c := <[(colorIdx1 + 2)%nat := byte_at c (colorIdx2 + 2)]> c in
  let c := <[colorIdx2 := r1]> c in
  let c := <[(colorIdx2 + 1)%nat := g1]> c in
  let c := <[(colorIdx2 + 2)%nat := b1]> c in
  (* update dynamic cell tracking *)
  let d := dynamicCells s in
  let d := if set_has idx1 d then set_add idx2 (set_delete idx1 d) else d in
  let d := if set_has idx2 d then set_add idx1 (set_delete idx2 d) else d in
  with_dynamicCells d (with_colorCache c (with_grid g s)).

(** [updateCellColor(x, y)] *)
Definition updateCellColor (x y : Z) : M unit :=
  idx <- gets (fun s => index s x y) ;;
  cell <- gets (fun s => grid s !!! idx) ;;
  color <- getColor (Cell.id cell) ;;
  modify (fun s => with_colorCache (store_rgba idx color (colorCache s)) s).

(** [updateColorCache()] *)
Definition updateColorCache : M unit :=
  h <- gets height ;;
  w <- gets width ;;
  for_each (seqZ 0 h) (fun y =>
    for_each (seqZ 0 w) (fun x => updateCellColor x y)).

(** [reset()] *)
Definition reset : M unit :=
  n <- gets (fun s => length (grid s)) ;;
  for_each (seq 0 n) (fun i =>
    modify (fun s => with_grid (<[i := air_cell]> (grid s)) s)) ;;
  modify (with_particleCount 0) ;;
  modify (with_dynamicCells []) ;;
  updateColorCache.

(** Largest length accepted by [new Array(len)]. *)
Definition max_array_length : Z := 2 ^ 32 - 1.

(** [new Simulation(width, height)].  The constructor checks nothing
    itself; it fails ([None]) when one of its two allocations throws a
    [RangeError]:
    - [new Array(n)] throws when [n] is negative or beyond the array
      length limit;
    - [new Uint8ClampedArray(n * 4)] throws when the host cannot provide
      a buffer of that many bytes.  The language leaves this to the host:
      [allocates bytes] says whether the host at hand provides the buffer.
    The slots of a fresh array are filled by [reset] before anything reads
    them. *)
Definition new_Simulation (allocates : Z -> bool) (width height : Z)
    (source : nat -> Q) (calls : nat) : option World :=
  let n := width * height in
  if (n <? 0) || (n >? max_array_length) then None
  else if negb (allocates (n * 4)) then None
  else
    let s := mkSimulation width height
               (replicate (Z.to_nat n) inhabitant)
               (replicate (Z.to_nat (n * 4)) 0)
               [] 0 0 in
    Some (run reset (mkWorld s source calls)).

(** [updateDynamicColors()] *)
Definition updateDynamicColors : M unit :=
  d <- gets dynamicCells ;;
  for_each d (fun idx =>
    cell <- gets (fun s => grid s !!! idx) ;;
    let mat := getMaterial (Cell.id cell) in
    match Mat.color mat with
    | Procedural sample =>
        color <- sample ;;
        modify (fun s => with_colorCache (store_rgb idx color (colorCache s)) s)
    | Fixed _ => ret tt
    end).

(** The coordinates and radii of the drawing functions are doubles that
    hold integers.  An operation whose exact result is the integer [z]
    gives [to_double z]: [z] itself up to [2 ^ 53] in magnitude, and
    beyond that the nearest integer of 53 significant bits, a tie going
    to the even significand.  (Results beyond the largest double, near
    [2 ^ 1024], are infinite in the source and are not represented; they
    take arguments beyond [2 ^ 512], far outside the bounds of the
    statements below.) *)
Definition to_double (z : Z) : Z :=
  let a := Z.abs z in
  if Z.log2 a <=? 52 then z
  else
    let ulp := 2 ^ (Z.log2 a - 52) in
    let q := a / ulp in
    let r := a mod ulp in
    let q := if 2 * r <? ulp then q
             else if 2 * r >? ulp then q + 1
             else if Z.even q then q else q + 1 in
    Z.sgn z * (q * ulp).

Arguments to_double : simpl never.

Inductive Shape := circle | square.

(** [drawBrush(centerX, centerY, materialId, radius, shape = 'circle')].
    The two [for] loops count from [- radius] to [radius]; they end for
    every radius below [2 ^ 53], where each [dy++] and [dx++] is exact. *)
Definition drawBrush (centerX centerY materialId radius : Z) (shape : Shape)
    : M unit :=
  let radiusSq := to_double (radius * radius) in
  for_each (seqZ (- radius) (2 * radius + 1)) (fun dy =>
    for_each (seqZ (- radius) (2 * radius + 1)) (fun dx =>
      let x := to_double (centerX + dx) in
      let y := to_double (centerY + dy) in
      oob <- gets (fun s => out_of_range s x y) ;;
      if oob then ret tt
      else if (match shape with circle => true | square => false end)
              && (to_double (to_double (dx * dx) + to_double (dy * dy))
                  >? radiusSq) then ret tt
      else
        r <- Math_random ;;
        if Qltb r 0.85 then setCell x y materialId no_props else ret tt)).

(** The [while (true)] loop of [drawLine], run for at most [fuel]
    iterations; the answer is [true] when the loop was left by its [break]
    and [false] when the iterations ran out first. *)
Fixpoint drawLine_loop (fuel : nat) (x1 y1 dx dy sx sy materialId radius : Z)
    (x0 y0 err : Z) : M bool :=
  match fuel with
  | O => ret false
  | S fuel' =>
      drawBrush x0 y0 materialId radius circle ;;
      if (x0 =? x1) && (y0 =? y1) then ret true
      else
        let e2 := to_double (2 * err) in
        let '(err, x0) :=
          if e2 >? - dy then (to_double (err - dy), to_double (x0 + sx))
          else (err, x0) in
        let '(err, y0) :=
          if e2 <? dx then (to_double (err + dx), to_double (y0 + sy))
          else (err, y0) in
        drawLine_loop fuel' x1 y1 dx dy sx sy materialId radius x0 y0 err
  end.

(** [drawLine(x0, y0, x1, y1, materialId, radius)] *)
Definition drawLine (fuel : nat) (x0 y0 x1 y1 materialId radius : Z)
    : M bool :=
  let dx := Z.abs (to_double (x1 - x0)) in
  let dy := Z.abs (to_double (y1 - y0)) in
  let sx := if x0 <? x1 then 1 else -1 in
  let sy := if y0 <? y1 then 1 else -1 in
  let err := to_double (dx - dy) in
  drawLine_loop fuel x1 y1 dx dy sx sy materialId radius x0 y0 err.

(** ** The physics step ([js/physics.js]) *)

Module PhysicsEngine.

Definition is_state (st : STATE.t) (m : Mat.t) : bool :=
  STATE.eqb (Mat.state m) st.

(** [cell.life = v] on the cell object stored at [(x, y)]. *)
Definition set_life (x y v : Z) : M unit :=
  modify (fun s =>
    let idx := index s x y in
    let c := grid s !!! idx in
    with_grid
      (<[idx := Cell.mk (Cell.id c) (Some v) (Cell.temperature c)
                  (Cell.updated c) (Cell.immovable c)]> (grid s)) s).

(** [tryPowderSlide(x, y, dir, cell, mat)] *)
Definition tryPowderSlide (x y dir : Z) (cell : Cell.t) (mat : Mat.t)
    : M bool :=
  side <- gets (getCell (x + dir) y) ;;
  let sideMat := getMaterial (Cell.id side) in
  diag <- gets (getCell (x + dir) (y + 1)) ;;
  let diagMat := getMaterial (Cell.id diag) in
  let diagOpen := (Cell.id diag =? AIR)
    || (is_state STATE.LIQUID diagMat
        && (Mat.density mat >? Mat.density diagMat)) in
  let sideOpen := (Cell.id side =? AIR) || is_state STATE.GAS sideMat in
  if diagOpen && sideOpen then
    modify (swap x y (x + dir) (y + 1)) ;; ret true
  else ret false.

(** [updatePowder(x, y, cell, mat)] *)
Definition updatePowder (x y : Z) (cell : Cell.t) (mat : Mat.t) : M bool :=
  below <- gets (getCell x (y + 1)) ;;
  let belowMat := getMaterial (Cell.id below) in
  if Cell.id below =? AIR then
    modify (swap x y x (y + 1)) ;; ret true
  else if is_state STATE.LIQUID belowMat
          && (Mat.density mat >? Mat.density belowMat) then
    r <- Math_random ;;
    if Qltb r 0.4 then modify (swap x y x (y + 1)) ;; ret true
    else ret false
  else
    r <- Math_random ;;
    let dir := if Qltb r 0.5 then 1 else -1 in
    first <- tryPowderSlide x y dir cell mat ;;
    if first then ret true
    else
      second <- tryPowderSlide x y (- dir) cell mat ;;
      if second then ret true else ret false.

(** The tail of [updateLiquid]: horizontal spreading and pressure
    equalization, entered when [canSpread] holds. *)
Definition spreadLiquid (x y dir : Z) (cell : Cell.t) : M bool :=
  left <- gets (getCell (x - 1) y) ;;
  right <- gets (getCell (x + 1) y) ;;
  let canLeft := Cell.id left =? AIR in
  let canRight := Cell.id right =? AIR in
  if canLeft && canRight then modify (swap x y (x + dir) y) ;; ret true
  else if canLeft then modify (swap x y (x - 1) y) ;; ret true
  else if canRight then modify (swap x y (x + 1) y) ;; ret true
  else
    r <- Math_random ;;
    if Qltb r 0.3 then
      leftBelow <- gets (getCell (x - 2) (y + 1)) ;;
      rightBelow <- gets (getCell (x + 2) (y + 1)) ;;
      if (Cell.id leftBelow =? AIR) && (Cell.id left =? Cell.id cell) then
        modify (swap x y (x - 1) y) ;; ret true
      else if (Cell.id rightBelow =? AIR)
              && (Cell.id right =? Cell.id cell) then
        modify (swap x y (x + 1) y) ;; ret true
      else ret false
    else ret false.

(** [updateLiquid(x, y, cell, mat)].  The block headed "Float up through
    denser liquids" of the source only reads a cell and has an empty body;
    it is left out. *)
Definition updateLiquid (x y : Z) (cell : Cell.t) (mat : Mat.t) : M bool :=
  let viscosity := num_or (Mat.viscosity mat) 1 in
  skip <- (if viscosity >? 1 then
             r <- Math_random ;; ret (Qgtb r (1 / inject_Z viscosity))
           else ret false) ;;
  if skip then ret false
  else
    below <- gets (getCell x (y + 1)) ;;
    let belowMat := getMaterial (Cell.id below) in
    if Cell.id below =? AIR then
      modify (swap x y x (y + 1)) ;; ret true
    else
      sunk <- (if is_state STATE.LIQUID belowMat
                  && (Mat.density mat >? Mat.density belowMat) then
                 r <- Math_random ;;
                 if Qltb r 0.5 then modify (swap x y x (y + 1)) ;; ret true
                 else ret false
               else ret false) ;;
      if sunk then ret true
      else
        r <- Math_random ;;
        let dir := if Qltb r 0.5 then 1 else -1 in
        diag1 <- gets (getCell (x + dir) (y + 1)) ;;
        if Cell.id diag1 =? AIR then
          modify (swap x y (x + dir) (y + 1)) ;; ret true
        else
          diag2 <- gets (getCell (x - dir) (y + 1)) ;;
          if Cell.id diag2 =? AIR then
            modify (swap x y (x - dir) (y + 1)) ;; ret true
          else
            let canSpread :=
              is_state STATE.SOLID belowMat
              || is_state STATE.POWDER belowMat
              || (is_state STATE.LIQUID belowMat
                  && (Mat.density mat <=? Mat.density belowMat)) in
            if canSpread then spreadLiquid x y dir cell else ret false.

(** [updateGas(x, y, cell, mat)] *)
Definition updateGas (x y : Z) (cell : Cell.t) (mat : Mat.t) : M bool :=
  expired <-
    (if truthy (Mat.lifetime mat) then
       let life := num_or (Cell.life cell) (default 0 (Mat.lifetime mat)) - 1 in
       set_life x y life ;;
       if life <=? 0 then
         (if Mat.dissipates mat then setCell x y AIR no_props
          else if truthy (Mat.condensesTo mat) then
            setCell x y (default 0 (Mat.condensesTo mat)) no_props
          else setCell x y AIR no_props) ;;
         ret true
       else ret false
     else ret false) ;;
  if expired then ret true
  else
    above <- gets (getCell x (y - 1)) ;;
    risen <- (if Cell.id above =? AIR then
                r <- Math_random ;;
                if Qltb r 0.8 then modify (swap x y x (y - 1)) ;; ret true
                else ret false
              else ret false) ;;
    if risen then ret true
    else
      r <- Math_random ;;
      let dir := if Qltb r 0.5 then 1 else -1 in
      diagUp1 <- gets (getCell (x + dir) (y - 1)) ;;
      diagUp2 <- gets (getCell (x - dir) (y - 1)) ;;
      try1 <- (if Cell.id diagUp1 =? AIR then
                 r <- Math_random ;; ret (Qltb r 0.5)
               else ret false) ;;
      if try1 then modify (swap x y (x + dir) (y - 1)) ;; ret true
      else
        try2 <- (if Cell.id diagUp2 =? AIR then
                   r <- Math_random ;; ret (Qltb r 0.5)
                 else ret false) ;;
        if try2 then modify (swap x y (x - dir) (y - 1)) ;; ret true
        else
          r <- Math_random ;;
          if Qltb r 0.2 then
            side <- gets (getCell (x + dir) y) ;;
            if Cell.id side =? AIR then
              modify (swap x y (x + dir) y) ;; ret true
            else ret false
          else ret false.

(** The "Explosion force" loop of [updateEnergy].  [mat.force || 5] is
    computed by the source and not used. *)
Definition explosionForce (x y : Z) : M unit :=
  for_each [-1; 0; 1] (fun dy =>
    for_each [-1; 0; 1] (fun dx =>
      if (dx =? 0) && (dy =? 0) then ret tt
      else
        let nx := x + dx in
        let ny := y + dy in
        neighbor <- gets (getCell nx ny) ;;
        let neighborMat := getMaterial (Cell.id neighbor) in
        if negb (Mat.immovable neighborMat)
           && negb (Cell.id neighbor =? EXPLOSION)
           && negb (Cell.id neighbor =? AIR) then
          let pushX := x + dx * 2 in
          let pushY := y + dy * 2 in
          inb <- gets (inBounds pushX pushY) ;;
          if inb then
            target <- gets (getCell pushX pushY) ;;
            if Cell.id target =? AIR then modify (swap nx ny pushX pushY)
            else ret tt
          else ret tt
        else ret tt)).

(** [updateEnergy(x, y, cell, mat)].  Every ENERGY material of the table
    has a lifetime, so [mat.lifetime] is a number here. *)
Definition updateEnergy (x y : Z) (cell : Cell.t) (mat : Mat.t) : M bool :=
  let life := num_or (Cell.life cell) (default 0 (Mat.lifetime mat)) - 1 in
  set_life x y life ;;
  if life <=? 0 then
    (if truthy (Mat.produces mat) then
       setCell x y (default 0 (Mat.produces mat)) no_props
     else setCell x y AIR no_props) ;;
    ret true
  else
    flicker <-
      (if Cell.id cell =? FIRE then
         r <- Math_random ;;
         up <- (if Qltb r 0.4 then
                  above <- gets (getCell x (y - 1)) ;;
                  if Cell.id above =? AIR then
                    modify (swap x y x (y - 1)) ;; ret true
                  else ret false
                else ret false) ;;
         if up then ret true
         else
           r <- Math_random ;;
           if Qltb r 0.15 then
             r <- Math_random ;;
             let dir := if Qltb r 0.5 then 1 else -1 in
             side <- gets (getCell (x + dir) y) ;;
             if Cell.id side =? AIR then
               modify (swap x y (x + dir) y) ;; ret true
             else ret false
           else ret false
       else ret false) ;;
    if flicker then ret true
    else
      when (Cell.id cell =? EXPLOSION) (explosionForce x y) ;;
      ret false.

(** [updateSolid(x, y, cell, mat)] *)
Definition updateSolid (x y : Z) (cell : Cell.t) (mat : Mat.t) : M bool :=
  if Mat.immovable mat then ret false
  else
    below <- gets (getCell x (y + 1)) ;;
    let belowMat := getMaterial (Cell.id below) in
    if Cell.id below =? AIR then
      modify (swap x y x (y + 1)) ;; ret true
    else if is_state STATE.LIQUID belowMat then
      if Mat.density mat <? Mat.density belowMat then ret false
      else
        r <- Math_random ;;
        if Qltb r 0.15 then modify (swap x y x (y + 1)) ;; ret true
        else ret false
    else ret false.

(** The stamp test [cell.updated === this.sim.frameCount]. *)
Definition stamped (cell : Cell.t) (frame : Z) : bool :=
  match Cell.updated cell with
  | Some u => u =? frame
  | None => false
  end.

(** [update(x, y)] *)
Definition update (x y : Z) : M bool :=
  cell <- gets (getCell x y) ;;
  if Cell.id cell =? AIR then ret false
  else
    frame <- gets frameCount ;;
    if stamped cell frame then ret false
    else
      let mat := getMaterial (Cell.id cell) in
      if Mat.immovable mat then ret false
      else
        match Mat.state mat with
        | STATE.POWDER => updatePowder x y cell mat
        | STATE.LIQUID => updateLiquid x y cell mat
        | STATE.GAS => updateGas x y cell mat
        | STATE.ENERGY => updateEnergy x y cell mat
        | STATE.SOLID => updateSolid x y cell mat
        end.

End PhysicsEngine.

(** ** The interaction step ([js/interactions.js]) *)

Module InteractionsEngine.

(** [key.includes(sub)] *)
Definition includes (key sub : string) : bool :=
  match String.index 0 sub key with
  | Some _ => true
  | None => false
  end.

(** The object built by [getNeighbors], as its entries in property
    order. *)
Definition Neighbors : Type := list (string * Cell.t).

(** [getNeighbors(x, y)] *)
Definition getNeighbors (x y : Z) (s : Simulation) : Neighbors := [
  ("above"%string, getCell x (y - 1) s);
  ("below"%string, getCell x (y + 1) s);
  ("left"%string, getCell (x - 1) y s);
  ("right"%string, getCell (x + 1) y s);
  ("aboveLeft"%string, getCell (x - 1) (y - 1) s);
  ("aboveRight"%string, getCell (x + 1) (y - 1) s);
  ("belowLeft"%string, getCell (x - 1) (y + 1) s);
  ("belowRight"%string, getCell (x + 1) (y + 1) s)
].

(** [neighbors.above], [neighbors.below] *)
Definition prop (key : string) (neighbors : Neighbors) : Cell.t :=
  match List.find (fun e => String.eqb (fst e) key) neighbors with
  | Some e => snd e
  | None => inhabitant
  end.

(** [Object.values(neighbors)] *)
Definition values (neighbors : Neighbors) : list Cell.t := map snd neighbors.

(** The coordinates the source derives from a neighbour's key. *)
Definition key_x (key : string) (x : Z) : Z :=
  if includes key "Left" then x - 1
  else if includes key "Right" then x + 1
  else x.

Definition key_y (key : string) (y : Z) : Z :=
  if includes key "above" then y - 1
  else if includes key "below" then y + 1
  else y.

(** A block of statements that may [return true], followed by the rest
    of the function. *)
Definition or_else (block rest : M bool) : M bool :=
  r <- block ;; if r then ret true else rest.

Definition has_id (id : Z) (neighbors : Neighbors) : bool :=
  existsb (fun n => Cell.id n =? id) (values neighbors).

(** [checkMelting(x, y, cell, mat, neighbors)] *)
Definition checkMelting (x y : Z) (cell : Cell.t) (mat : Mat.t)
    (neighbors : Neighbors) : M bool :=
  or_else
    (if Cell.id cell =? ICE then
       for_return (values neighbors) (fun neighbor =>
         let neighborMat := getMaterial (Cell.id neighbor) in
         if match Mat.meltTemp mat with
            | Some t => Mat.temperature neighborMat >? t + 50
            | None => false
            end
            || (Cell.id neighbor =? FIRE)
            || (Cell.id neighbor =? LAVA) then
           r <- Math_random ;;
           if Qltb r 0.05 then setCell x y WATER no_props ;; ret true
           else ret false
         else ret false)
     else ret false)
    (or_else
      (if Cell.id cell =? WATER then
         for_return (values neighbors) (fun neighbor =>
           if (Cell.id neighbor =? FIRE) || (Cell.id neighbor =? LAVA) then
             r <- Math_random ;;
             if Qltb r 0.1 then setCell x y STEAM no_props ;; ret true
             else ret false
           else ret false)
       else ret false)
      (ret false)).

(** One [case] of the [switch] in [checkBurning]: the cell turns into
    [into] with probability [p]. *)
Definition burn (x y : Z) (p : Q) (into : Z) : M bool :=
  r <- Math_random ;;
  if Qltb r p then setCell x y into no_props ;; ret true else ret false.

(** [checkBurning(x, y, cell, mat, neighbors)] *)
Definition checkBurning (x y : Z) (cell : Cell.t) (mat : Mat.t)
    (neighbors : Neighbors) : M bool :=
  if negb (Mat.flammable mat) then ret false
  else
    let ignitionSource :=
      existsb (fun neighbor =>
        Mat.ignites (getMaterial (Cell.id neighbor))
        || (Cell.id neighbor =? FIRE)) (values neighbors) in
    if negb ignitionSource then ret false
    else if Cell.id cell =? WOOD then
      r <- Math_random ;;
      if Qltb r 0.02 then
        setCell x y FIRE no_props ;;
        r <- Math_random ;;
        when (Qltb r 0.3)
          (let below := prop "below" neighbors in
           when (Cell.id below =? AIR)
             (setCell x (y + 1) CHARCOAL no_props)) ;;
        ret true
      else ret false
    else if Cell.id cell =? OIL then burn x y 0.15 FIRE
    else if Cell.id cell =? GAS then burn x y 0.5 EXPLOSION
    else if (Cell.id cell =? GRASS) || (Cell.id cell =? PLANT) then
      burn x y 0.05 FIRE
    else if Cell.id cell =? CHARCOAL then burn x y 0.01 FIRE
    else ret false.

(** [checkMixing(x, y, cell, mat, neighbors)] *)
Definition checkMixing (x y : Z) (cell : Cell.t) (mat : Mat.t)
    (neighbors : Neighbors) : M bool :=
  or_else
    (if Cell.id cell =? SAND then
       for_return (values neighbors) (fun neighbor =>
         if Cell.id neighbor =? WATER then
           r <- Math_random ;;
           if Qltb r 0.05 then setCell x y MUD no_props ;; ret true
           else ret false
         else ret false)
     else ret false)
  (or_else
    (if Cell.id cell =? DIRT then
       let above := prop "above" neighbors in
       if Cell.id above =? AIR then
         let hasWater := has_id WATER neighbors in
         if hasWater then
           r <- Math_random ;;
           if Qltb r 0.001 then setCell x (y - 1) GRASS no_props ;; ret true
           else ret false
         else ret false
       else ret false
     else ret false)
  (or_else
    (if Cell.id cell =? LAVA then
       for_return neighbors (fun '(key, neighbor) =>
         if Cell.id neighbor =? WATER then
           r <- Math_random ;;
           if Qltb r 0.3 then
             setCell x y STONE no_props ;;
             let nx := key_x key x in
             let ny := key_y key y in
             setCell nx ny STEAM no_props ;;
             ret true
           else ret false
         else ret false)
     else ret false)
  (or_else
    (if Cell.id cell =? WATER then
       for_return neighbors (fun '(key, neighbor) =>
         if Cell.id neighbor =? LAVA then
           r <- Math_random ;;
           if Qltb r 0.3 then setCell x y STEAM no_props ;; ret true
           else ret false
         else ret false)
     else ret false)
    (ret false)))).

(** [checkGrowing(x, y, cell, mat, neighbors)] *)
Definition checkGrowing (x y : Z) (cell : Cell.t) (mat : Mat.t)
    (neighbors : Neighbors) : M bool :=
  or_else
    (if Cell.id cell =? GRASS then
       r <- Math_random ;;
       if Qltb r 0.002 then
         for_return [(-1, 0); (1, 0); (0, 1)] (fun '(dx, dy) =>
           neighbor <- gets (getCell (x + dx) (y + dy)) ;;
           above <- gets (getCell (x + dx) (y + dy - 1)) ;;
           if (Cell.id neighbor =? DIRT) && (Cell.id above =? AIR) then
             setCell (x + dx) (y + dy - 1) GRASS no_props ;; ret true
           else ret false)
       else ret false
     else ret false)
  (or_else
    (if Cell.id cell =? PLANT then
       let above := prop "above" neighbors in
       if Cell.id above =? AIR then
         r <- Math_random ;;
         if Qltb r 0.001 then
           let hasWater := has_id WATER neighbors in
           if hasWater then setCell x (y - 1) PLANT no_props ;; ret true
           else ret false
         else ret false
       else ret false
     else ret false)
    (ret false)).

(** [checkConduction(x, y, cell, mat, neighbors)] *)
Definition checkConduction (x y : Z) (cell : Cell.t) (mat : Mat.t)
    (neighbors : Neighbors) : M bool :=
  when (Cell.id cell =? ELECTRICITY)
    (for_each neighbors (fun '(key, neighbor) =>
       let neighborMat := getMaterial (Cell.id neighbor) in
       if Mat.conductive neighborMat
          && negb (Cell.id neighbor =? ELECTRICITY) then
         r <- Math_random ;;
         if Qltb r 0.5 then
           let nx := key_x key x in
           let ny := key_y key y in
           r <- Math_random ;;
           if Qltb r 0.3 then setCell nx ny ELECTRICITY no_props
           else ret tt
         else ret tt
       else ret tt)) ;;
  ret false.

(** [checkErosion(x, y, cell, mat, neighbors)] *)
Definition checkErosion (x y : Z) (cell : Cell.t) (mat : Mat.t)
    (neighbors : Neighbors) : M bool :=
  or_else
    (if Cell.id cell =? WATER then
       for_return neighbors (fun '(key, neighbor) =>
         if (Cell.id neighbor =? SAND) || (Cell.id neighbor =? DIRT) then
           r <- Math_random ;;
           if Qltb r 0.0005 then
             let nx := key_x key x in
             let ny := key_y key y in
             setCell nx ny MUD no_props ;; ret true
           else ret false
         else ret false)
     else ret false)
    (ret false).

(** [update(x, y)] *)
Definition update (x y : Z) : M bool :=
  cell <- gets (getCell x y) ;;
  if Cell.id cell =? AIR then ret false
  else
    let mat := getMaterial (Cell.id cell) in
    let changed := false in
    neighbors <- gets (getNeighbors x y) ;;
    c <- checkMelting x y cell mat neighbors ;;
    let changed := c || changed in
    c <- checkBurning x y cell mat neighbors ;;
    let changed := c || changed in
    c <- checkMixing x y cell mat neighbors ;;
    let changed := c || changed in
    c <- checkGrowing x y cell mat neighbors ;;
    let changed := c || changed in
    c <- checkConduction x y cell mat neighbors ;;
    let changed := c || changed in
    c <- checkErosion x y cell mat neighbors ;;
    let changed := c || changed in
    ret changed.

End InteractionsEngine.

(** ** The tick *)

(** [tick()] *)
Definition tick : M unit :=
  modify (fun s => with_frameCount (frameCount s + 1) s) ;;
  frame <- gets frameCount ;;
  let leftToRight := Z.rem frame 2 =? 0 in
  h <- gets height ;;
  w <- gets width ;;
  for_each (reverse (seqZ 0 h)) (fun y =>
    if leftToRight then
      for_each (seqZ 0 w) (fun x => PhysicsEngine.update x y ;; ret tt)
    else
      for_each (reverse (seqZ 0 w)) (fun x =>
        PhysicsEngine.update x y ;; ret tt)) ;;
  when (Z.rem frame 2 =? 0)
    (for_each (reverse (seqZ 0 h)) (fun y =>
       for_each (seqZ 0 w) (fun x =>
         when (Z.rem (x + y) 3 =? 0)
           (InteractionsEngine.update x y ;; ret tt)))) ;;
  updateDynamicColors.

(** [n] ticks in a row. *)
Fixpoint ticks (n : nat) : M unit :=
  match n with
  | O => ret tt
  | S n' => tick ;; ticks n'
  end.

(** * Vocabulary of the specification *)

(** ** Weakest preconditions for the state monad *)

Definition wp {A} (m : M A) (Q : A -> World -> Prop) (w : World) : Prop :=
  Q (fst (m w)) (snd (m w)).

(** ** The grid and its primitives *)

(** The cell array has one slot per coordinate pair. *)
Definition wf (s : Simulation) : Prop :=
  length (grid s) = Z.to_nat (width s * height s).

(** What an in-range [setCell] leaves behind, given the colour it
    sampled. *)
Definition placed (x y materialId : Z) (props : Props) (color : RGB)
    (s : Simulation) : Simulation :=
  let idx := index s x y in
  let oldId := Cell.id (grid s !!! idx) in
  let mat := getMaterial materialId in
  mkSimulation (width s) (height s)
    (<[idx := Cell.mk materialId
         (override (props_life props) (num_or (Mat.lifetime mat) 0))
         (override (props_temperature props)
            (num_or (Some (Mat.temperature mat)) 20))
         None false]> (grid s))
    (store_rgba idx color (colorCache s))
    (if is_function (Mat.color mat) then set_add idx (dynamicCells s)
     else set_delete idx (dynamicCells s))
    (frameCount s)
    (if (oldId =? AIR) && negb (materialId =? AIR) then particleCount s + 1
     else if negb (oldId =? AIR) && (materialId =? AIR)
          then particleCount s - 1
          else particleCount s).

(** The simulation after [cell.life = v] on the cell stored at [(x, y)]. *)
Definition aged (x y v : Z) (s : Simulation) : Simulation :=
  let idx := index s x y in
  let c := grid s !!! idx in
  with_grid
    (<[idx := Cell.mk (Cell.id c) (Some v) (Cell.temperature c)
                (Cell.updated c) (Cell.immovable c)]> (grid s)) s.

(** Two simulations that differ at most in their colour cache. *)
Definition same_but_colors (s s' : Simulation) : Prop :=
  width s' = width s /\ height s' = height s /\ grid s' = grid s /\
  dynamicCells s' = dynamicCells s /\ frameCount s' = frameCount s /\
  particleCount s' = particleCount s.

(** The assignments made by the first loop of [reset]. *)
Definition fill_air (a k : nat) (g : list Cell.t) : list Cell.t :=
  foldl (fun g i => <[i := air_cell]> g) g (seq a k).

(** The indices whose current material has a function-valued colour. *)
Definition procedural_cells (s : Simulation) : list nat :=
  filter
    (fun i => is_function (Mat.color (getMaterial (Cell.id (grid s !!! i))))
              = true)
    (seq 0 (length (grid s))).

(** The calls a client can make on the grid. *)
Inductive Call :=
| CallSetCell (x y materialId : Z) (props : Props)
| CallSwap (x1 y1 x2 y2 : Z)
| CallReset.

Definition call (c : Call) : M unit :=
  match c with
  | CallSetCell x y materialId props => setCell x y materialId props
  | CallSwap x1 y1 x2 y2 => modify (swap x1 y1 x2 y2)
  | CallReset => reset
  end.

(** ** Counting particles *)

Definition non_air (c : Cell.t) : Z := if Cell.id c =? AIR then 0 else 1.

Fixpoint count_particles (g : list Cell.t) : Z :=
  match g with
  | [] => 0
  | c :: g' => non_air c + count_particles g'
  end.

Definition counted (s : Simulation) : Prop :=
  wf s /\ particleCount s = count_particles (grid s).

(** ** Worlds to evaluate the code on *)

Definition zero_source : nat -> Q := fun _ => 0%Q.

(** A host that provides buffers of up to [limit] bytes. *)
Definition provides (limit : Z) : Z -> bool := fun bytes => bytes <=? limit.

(** The host of the worlds below, good for one gibibyte. *)
Definition host : Z -> bool := provides (2 ^ 30).

(** The world made by [new Simulation(width, height)] when the allocations
    succeed (an empty simulation otherwise). *)
Definition fresh (width height : Z) : World :=
  match new_Simulation host width height zero_source 0 with
  | Some w => w
  | None => mkWorld (mkSimulation 0 0 [] [] [] 0 0) zero_source 0
  end.

(** WATER at (1,1) with LAVA above and SAND below on a 3 x 3 grid. *)
Definition water_between_lava_and_sand : World :=
  run (setCell 1 2 SAND no_props)
    (run (setCell 1 0 LAVA no_props)
       (run (setCell 1 1 WATER no_props) (fresh 3 3))).

(** LAVA placed at (5,5) and WATER at (6,5). *)
Definition lava_next_to_water (w0 : World) : World :=
  run (setCell 6 5 WATER no_props) (run (setCell 5 5 LAVA no_props) w0).

(** ** Rule families of the interaction step *)

Module Families.
Import InteractionsEngine.

Definition family : Type :=
  Z -> Z -> Cell.t -> Mat.t -> Neighbors -> M bool.

(** The six rule families, in the order [update] calls them. *)
Definition families : list family :=
  [checkMelting; checkBurning; checkMixing; checkGrowing; checkConduction;
   checkErosion].

(** Every family of the list is run, each on the same cell, material and
    neighbours; the answer is whether any of them applied. *)
Fixpoint run_all (fs : list family) (x y : Z) (cell : Cell.t) (mat : Mat.t)
    (neighbors : Neighbors) : M bool :=
  match fs with
  | [] => ret false
  | f :: fs' =>
      c <- f x y cell mat neighbors ;;
      r <- run_all fs' x y cell mat neighbors ;;
      ret (c || r)
  end.

End Families.

(** ** Explosions *)



(** ** Where STONE can appear *)

(** Every STONE cell sits at coordinates whose sum is a multiple of 3. *)
Definition stones_on_lattice (s : Simulation) : Prop :=
  forall x y, out_of_range s x y = false ->
    Cell.id (getCell x y s) = STONE -> Z.rem (x + y) 3 = 0.

(** The invariant of a simulation of size [wd] x [ht]: the size stays and
    every STONE cell is on the lattice. *)
Definition stone_on_lattice (wd ht : Z) (s : Simulation) : Prop :=
  width s = wd /\ height s = ht /\ stones_on_lattice s.

(** No material condenses into STONE or produces it. *)
Definition tame (mat : Mat.t) : Prop :=
  default 0 (Mat.condensesTo mat) <> STONE
  /\ default 0 (Mat.produces mat) <> STONE.

(** ** Further vocabulary *)

(** The colour cache has four bytes per slot of the cell array. *)
Definition cache_wf (s : Simulation) : Prop :=
  length (colorCache s) = (4 * length (grid s))%nat.

(** Whether the material of a cell has a function-valued colour. *)
Definition procedural (c : Cell.t) : bool :=
  is_function (Mat.color (getMaterial (Cell.id c))).

(** The dynamic-cell index holds exactly the slots of procedural colour. *)
Definition exact_index (s : Simulation) : Prop :=
  forall i : nat,
    i ∈ dynamicCells s
    <-> (i < length (grid s))%nat /\ procedural (grid s !!! i) = true.

(** The calls that write single cells or clear the grid. *)
Definition writes_cells_only (c : Call) : bool :=
  match c with
  | CallSwap _ _ _ _ => false
  | _ => true
  end.

(** [hasGravity(id)] *)
Definition hasGravity (id : Z) : bool :=
  let mat := getMaterial id in
  negb (STATE.eqb (Mat.state mat) STATE.SOLID) || negb (Mat.immovable mat).

(** The cell a [setCell] without overrides stores. *)
Definition fresh_cell (materialId : Z) (props : Props) : Cell.t :=
  let mat := getMaterial materialId in
  Cell.mk materialId
    (override (props_life props) (num_or (Mat.lifetime mat) 0))
    (override (props_temperature props)
       (num_or (Some (Mat.temperature mat)) 20))
    None false.

(** The colour cache after the six stores of [swap] on slots [i1] and
    [i2]. *)
Definition exchanged_bytes (c : list Z) (i1 i2 : nat) : list Z :=
  let r1 := byte_at c (i1 * 4) in
  let g1 := byte_at c (i1 * 4 + 1) in
  let b1 := byte_at c (i1 * 4 + 2) in
  let c := <[(i1 * 4)%nat := byte_at c (i2 * 4)]> c in
  let c := <[(i1 * 4 + 1)%nat := byte_at c (i2 * 4 + 1)]> c in
  let c := <[(i1 * 4 + 2)%nat := byte_at c (i2 * 4 + 2)]> c in
  let c := <[(i2 * 4)%nat := r1]> c in
  let c := <[(i2 * 4 + 1)%nat := g1]> c in
  <[(i2 * 4 + 2)%nat := b1]> c.

(** ** Whole operations *)

(** The operations the interface performs on a simulation.  A [drawLine]
    stopped after [fuel] iterations stands for a prefix of the loop of the
    source, so that a property of every state reached below is a property
    of every state the source reaches. *)
Inductive Op :=
| OpCall (c : Call)
| OpTick
| OpBrush (centerX centerY materialId radius : Z) (shape : Shape)
| OpLine (fuel : nat) (x0 y0 x1 y1 materialId radius : Z).

Definition op (o : Op) : M unit :=
  match o with
  | OpCall c => call c
  | OpTick => tick
  | OpBrush centerX centerY materialId radius shape =>
      drawBrush centerX centerY materialId radius shape
  | OpLine fuel x0 y0 x1 y1 materialId radius =>
      drawLine fuel x0 y0 x1 y1 materialId radius ;; ret tt
  end.


(** No cell object carries an [updated] property. *)
Definition unstamped (s : Simulation) : Prop :=
  Forall (fun c => Cell.updated c = None) (grid s).

(** The square of side [2 * reach + 1] around [(x, y)]. *)
Definition within (reach x y a b : Z) : Prop :=
  x - reach <= a <= x + reach /\ y - reach <= b <= y + reach.

(** The offsets a brush of the given radius and shape covers. *)
Definition covers (shape : Shape) (radius dx dy : Z) : Prop :=
  - radius <= dx <= radius /\ - radius <= dy <= radius
  /\ (shape = circle -> dx * dx + dy * dy <= radius * radius).

(** A cell that the physics step can only move: AIR, a powder, a liquid
    or a solid. *)
Definition settled (c : Cell.t) : Prop :=
  Cell.id c <> AIR ->
  Mat.state (getMaterial (Cell.id c)) <> STATE.GAS
  /\ Mat.state (getMaterial (Cell.id c)) <> STATE.ENERGY.

(** * Reasoning principles *)

(** ** Rules of the weakest preconditions *)

Lemma wp_ret {A} (a : A) Q w : Q a w -> wp (ret a) Q w.
Proof. exact (fun H => H). Qed.

Lemma wp_bind {A B} (m : M A) (k : A -> M B) Q w :
  wp m (fun a w' => wp (k a) Q w') w -> wp (bind m k) Q w.
Proof. unfold wp, bind. destruct (m w) as [a w']. exact (fun H => H). Qed.

Lemma wp_gets {A} (f : Simulation -> A) Q w :
  Q (f (sim w)) w -> wp (gets f) Q w.
Proof. exact (fun H => H). Qed.

Lemma wp_modify f Q w :
  Q tt (mkWorld (f (sim w)) (random_source w) (random_calls w)) ->
  wp (modify f) Q w.
Proof. exact (fun H => H). Qed.

Lemma wp_random Q w :
  Q (random_source w (random_calls w))
    (mkWorld (sim w) (random_source w) (S (random_calls w))) ->
  wp Math_random Q w.
Proof. exact (fun H => H). Qed.

Lemma wp_mono {A} (m : M A) (Q1 Q2 : A -> World -> Prop) w :
  wp m Q1 w -> (forall a w', Q1 a w' -> Q2 a w') -> wp m Q2 w.
Proof. unfold wp. auto. Qed.

Lemma wp_run {A} (m : M A) (P : World -> Prop) w :
  wp m (fun _ w' => P w') w -> P (run m w).
Proof. exact (fun H => H). Qed.


(** A loop keeps what each of its iterations keeps. *)
Lemma wp_for_each {A} (I : World -> Prop) (l : list A) (body : A -> M unit) :
  (forall a w, a ∈ l -> I w -> wp (body a) (fun _ w' => I w') w) ->
  forall w, I w -> wp (for_each l body) (fun _ w' => I w') w.
Proof.
  induction l as [|a l IH]; intros Hbody w Hw; simpl.
  - exact Hw.
  - apply wp_bind. apply (wp_mono _ (fun _ w' => I w')).
    + apply Hbody; [left | exact Hw].
    + intros _ w' Hw'. apply IH; [|exact Hw'].
      intros b w'' Hb. apply Hbody. now right.
Qed.

Lemma wp_for_return {A} (I : World -> Prop) (l : list A)
    (body : A -> M bool) :
  (forall a w, a ∈ l -> I w -> wp (body a) (fun _ w' => I w') w) ->
  forall w, I w -> wp (for_return l body) (fun _ w' => I w') w.
Proof.
  induction l as [|a l IH]; intros Hbody w Hw; simpl.
  - exact Hw.
  - apply wp_bind. apply (wp_mono _ (fun _ w' => I w')).
    + apply Hbody; [left | exact Hw].
    + intros r w' Hw'. destruct r; [exact Hw'|].
      apply IH; [|exact Hw'].
      intros b w'' Hb. apply Hbody. now right.
Qed.

(** One step of symbolic execution. *)
Ltac wp_step :=
  lazymatch goal with
  | |- wp (bind _ _) _ _ => apply wp_bind
  | |- wp (ret _) _ _ => apply wp_ret
  | |- wp (gets _) _ _ => apply wp_gets
  | |- wp (modify _) _ _ => apply wp_modify
  | |- wp Math_random _ _ => apply wp_random
  | |- wp (when _ _) _ _ => unfold when
  | |- wp (for_each (_ :: _) _) _ _ => cbn [for_each]
  | |- wp (for_each [] _) _ _ => apply wp_ret
  | |- wp (if true then _ else _) _ _ => cbv iota
  | |- wp (if false then _ else _) _ _ => cbv iota
  | |- wp (if ?c then _ else _) _ _ => destruct c eqn:?
  | |- wp (let _ := _ in _) _ _ => cbv zeta
  | |- wp (match ?c with Some _ => _ | None => _ end) _ _ => destruct c eqn:?
  | |- wp (let '(_, _) := ?p in _) _ _ => destruct p eqn:?
  end; cbv beta; cbn [sim random_source random_calls].

Ltac wp_steps := repeat wp_step.

(** ** The material table *)

Lemma getMaterial_in_table id : getMaterial id ∈ MATERIALS_table.
Proof.
  unfold getMaterial, MATERIALS.
  destruct (List.find _ _) as [m|] eqn:E.
  - apply find_some in E. apply list_elem_of_In, E.
  - left.
Qed.

Lemma getMaterial_id id :
  Mat.id (getMaterial id) = id \/ getMaterial id = AIR_material.
Proof.
  unfold getMaterial, MATERIALS.
  destruct (List.find _ _) as [m|] eqn:E; [left|now right].
  apply find_some in E. lia.
Qed.

(** A property of every material of the table holds of [getMaterial id]. *)
Lemma table_ind (P : Mat.t -> Prop) :
  Forall P MATERIALS_table -> forall id, P (getMaterial id).
Proof.
  intros H id. rewrite List.Forall_forall in H.
  apply H, list_elem_of_In, getMaterial_in_table.
Qed.

Lemma sample_color_sim id w :
  sim (snd (sample_color (getMaterial id) w)) = sim w.
Proof.
  revert w. pattern (getMaterial id). apply table_ind.
  repeat constructor.
Qed.

Lemma getColor_sim id w : sim (snd (getColor id w)) = sim w.
Proof. apply sample_color_sim. Qed.

(** STONE is the only immovable material. *)
Lemma immovable_stone id :
  Mat.immovable (getMaterial id) = true -> id = STONE.
Proof.
  intros H.
  assert (T : Mat.immovable (getMaterial id) = true ->
              Mat.id (getMaterial id) = STONE).
  { pattern (getMaterial id). apply table_ind.
    repeat constructor; discriminate. }
  destruct (getMaterial_id id) as [E | E].
  - rewrite <- E. auto.
  - rewrite E in H. discriminate.
Qed.

(** ** The grid primitives *)

Lemma out_of_range_spec s x y :
  out_of_range s x y = false <->
  0 <= x < width s /\ 0 <= y < height s.
Proof. unfold out_of_range. lia. Qed.

Lemma inBounds_out_of_range s x y :
  inBounds x y s = negb (out_of_range s x y).
Proof. unfold inBounds, out_of_range. lia. Qed.

Lemma index_lt s x y :
  wf s -> out_of_range s x y = false -> (index s x y < length (grid s))%nat.
Proof.
  unfold wf, index. intros -> H. apply out_of_range_spec in H.
  apply Z2Nat.inj_lt; nia.
Qed.

Lemma setCell_out x y m p w :
  out_of_range (sim w) x y = true -> setCell x y m p w = (tt, w).
Proof.
  intros H. unfold setCell, bind, gets. simpl. now rewrite H.
Qed.

Lemma setCell_in x y m p w :
  out_of_range (sim w) x y = false ->
  exists color, sim (run (setCell x y m p) w) = placed x y m p color (sim w).
Proof.
  intros H. unfold run, setCell, bind, gets. simpl. rewrite H.
  unfold placed, num_or.
  repeat match goal with
         | |- context [if ?c then _ else _] => destruct c eqn:?
         end; simpl;
  match goal with
  | |- context [sample_color ?mat ?w0] =>
      pose proof (sample_color_sim m w0) as Hs;
      destruct (sample_color mat w0) as [color w']
  end; exists color; simpl in *; rewrite Hs; reflexivity.
Qed.

Lemma wf_placed x y m p color s : wf s -> wf (placed x y m p color s).
Proof. unfold wf, placed. simpl. now rewrite length_insert. Qed.

Lemma wf_swap x1 y1 x2 y2 s : wf s -> wf (swap x1 y1 x2 y2 s).
Proof.
  unfold wf, swap. intros H.
  destruct (out_of_range s x1 y1); [exact H|].
  destruct (out_of_range s x2 y2); [exact H|].
  simpl. now rewrite !length_insert.
Qed.

(** ** Counting particles *)

Lemma count_particles_insert (g : list Cell.t) (i : nat) (c : Cell.t) :
  (i < length g)%nat ->
  count_particles (<[i := c]> g)
  = count_particles g - non_air (g !!! i) + non_air c.
Proof.
  revert i. induction g as [|a g IH]; intros [|i] H; simpl in *; try lia.
  rewrite IH by lia. change (lookup_total (S i) (a :: g)) with (g !!! i).
  lia.
Qed.

Lemma count_particles_replicate n :
  count_particles (replicate n air_cell) = 0.
Proof. induction n; simpl; auto. Qed.

Lemma count_particles_swap x1 y1 x2 y2 s :
  wf s -> count_particles (grid (swap x1 y1 x2 y2 s)) = count_particles (grid s).
Proof.
  intros Hwf. unfold swap.
  destruct (out_of_range s x1 y1) eqn:H1; [reflexivity|].
  destruct (out_of_range s x2 y2) eqn:H2; [reflexivity|].
  pose proof (index_lt _ _ _ Hwf H1). pose proof (index_lt _ _ _ Hwf H2).
  simpl.
  rewrite !count_particles_insert by (rewrite ?length_insert; lia).
  destruct (decide (index s x1 y1 = index s x2 y2)) as [E|E].
  - rewrite E, list_lookup_total_insert_eq by lia. lia.
  - rewrite list_lookup_total_insert_ne by exact E. lia.
Qed.

(** ** Reset and construction *)

Lemma same_but_colors_refl s : same_but_colors s s.
Proof. repeat split. Qed.

Lemma updateCellColor_same s x y w :
  same_but_colors s (sim w) ->
  wp (updateCellColor x y) (fun _ w' => same_but_colors s (sim w')) w.
Proof.
  intros H. unfold updateCellColor. wp_steps.
  apply (wp_mono _ (fun _ w' => sim w' = sim w)).
  - apply getColor_sim.
  - intros color w' E. wp_steps. simpl. rewrite E. exact H.
Qed.

Lemma updateColorCache_same w :
  wp updateColorCache (fun _ w' => same_but_colors (sim w) (sim w')) w.
Proof.
  unfold updateColorCache. wp_steps.
  apply (wp_for_each (fun w' => same_but_colors (sim w) (sim w')));
    [|apply same_but_colors_refl].
  intros y w1 _ H1.
  apply (wp_for_each (fun w' => same_but_colors (sim w) (sim w')));
    [|exact H1].
  intros x w2 _ H2. now apply updateCellColor_same.
Qed.

Lemma fill_air_loop a k w :
  for_each (seq a k)
    (fun i => modify (fun s => with_grid (<[i := air_cell]> (grid s)) s)) w
  = (tt, mkWorld (with_grid (fill_air a k (grid (sim w))) (sim w))
           (random_source w) (random_calls w)).
Proof.
  unfold fill_air. revert a w.
  induction k as [|k IH]; intros a w; simpl.
  - destruct w as [[] ? ?]; reflexivity.
  - unfold bind, modify at 1. rewrite IH. reflexivity.
Qed.

Lemma fill_air_lookup a k (g : list Cell.t) (i : nat) :
  fill_air a k g !! i
  = if bool_decide (a <= i < a + k)%nat && bool_decide (i < length g)%nat
    then Some air_cell else g !! i.
Proof.
  unfold fill_air. revert a g.
  induction k as [|k IH]; intros a g; simpl.
  - rewrite bool_decide_eq_false_2 by lia. reflexivity.
  - rewrite IH, length_insert.
    destruct (decide (i = a)) as [->|Hne].
    + rewrite (bool_decide_eq_false_2 (S a <= a < _)%nat) by lia.
      rewrite (bool_decide_eq_true_2 (a <= a < _)%nat) by lia. simpl.
      case_bool_decide.
      * now apply list_lookup_insert_eq.
      * rewrite list_insert_ge by lia. reflexivity.
    + rewrite list_lookup_insert_ne by auto.
      repeat case_bool_decide; simpl; try reflexivity; lia.
Qed.

Lemma fill_air_all (g : list Cell.t) :
  fill_air 0 (length g) g = replicate (length g) air_cell.
Proof.
  apply list_eq. intros i. rewrite fill_air_lookup.
  destruct (decide (i < length g)%nat).
  - rewrite !bool_decide_eq_true_2 by lia. simpl.
    symmetry. now apply lookup_replicate_2.
  - rewrite (bool_decide_eq_false_2 (i < _)%nat), andb_false_r by lia.
    rewrite lookup_ge_None_2 by lia.
    symmetry. apply lookup_ge_None_2. rewrite length_replicate. lia.
Qed.

(** [reset] leaves an all-AIR grid of the same size, no particles and no
    dynamic cells. *)
Lemma reset_spec w :
  exists cache,
    sim (run reset w)
    = mkSimulation (width (sim w)) (height (sim w))
        (replicate (length (grid (sim w))) air_cell) cache []
        (frameCount (sim w)) 0.
Proof.
  unfold run, reset, bind, gets. simpl.
  rewrite fill_air_loop, fill_air_all. simpl.
  match goal with
  | |- context [updateColorCache ?w0] =>
      pose proof (updateColorCache_same w0) as H;
      unfold wp in H; simpl in H;
      destruct (sim (snd (updateColorCache w0))) as [wd ht g c d f n]
  end.
  destruct H as (Hw & Hh & Hg & Hd & Hf & Hp). simpl in *. subst.
  now exists c.
Qed.

(** ** The particle count *)

Lemma new_Simulation_sim allocates width height source calls w0 :
  new_Simulation allocates width height source calls = Some w0 ->
  exists cache,
    sim w0 = mkSimulation width height
               (replicate (Z.to_nat (width * height)) air_cell) cache [] 0 0.
Proof.
  unfold new_Simulation. cbv zeta.
  destruct (_ || _); [discriminate|].
  destruct (negb _); [discriminate|]. intros H.
  match type of H with
  | Some (run reset ?w) = _ =>
      assert (E0 : w0 = run reset w) by congruence;
      destruct (reset_spec w) as [cache E]
  end.
  exists cache. rewrite E0, E. simpl. now rewrite length_replicate.
Qed.

Lemma counted_new allocates width height source calls w0 :
  new_Simulation allocates width height source calls = Some w0 ->
  counted (sim w0).
Proof.
  intros H. apply new_Simulation_sim in H as [cache ->].
  split; [unfold wf|]; simpl.
  - apply length_replicate.
  - now rewrite count_particles_replicate.
Qed.

Lemma counted_placed x y m p color s :
  counted s -> out_of_range s x y = false -> counted (placed x y m p color s).
Proof.
  intros [Hwf Hc] Hin. split; [now apply wf_placed|].
  pose proof (index_lt _ _ _ Hwf Hin) as Hlt.
  unfold placed. simpl. rewrite count_particles_insert by exact Hlt.
  rewrite Hc. unfold non_air. simpl.
  destruct (Cell.id _ =? AIR), (m =? AIR); simpl; lia.
Qed.

Lemma counted_swap x1 y1 x2 y2 s :
  counted s -> counted (swap x1 y1 x2 y2 s).
Proof.
  intros [Hwf Hc]. split; [now apply wf_swap|].
  rewrite count_particles_swap by exact Hwf. rewrite <- Hc.
  unfold swap. destruct (out_of_range s x1 y1); [reflexivity|].
  destruct (out_of_range s x2 y2); reflexivity.
Qed.

Lemma counted_reset w : counted (sim w) -> counted (sim (run reset w)).
Proof.
  intros [Hwf _]. destruct (reset_spec w) as [cache ->].
  split; [unfold wf in *|]; simpl.
  - now rewrite length_replicate.
  - now rewrite count_particles_replicate.
Qed.

Lemma counted_call c w : counted (sim w) -> counted (sim (run (call c) w)).
Proof.
  intros H. destruct c as [x y m p|x1 y1 x2 y2|]; simpl.
  - destruct (out_of_range (sim w) x y) eqn:E.
    + unfold run. now rewrite setCell_out.
    + destruct (setCell_in x y m p w E) as [color ->].
      now apply counted_placed.
  - now apply counted_swap.
  - now apply counted_reset.
Qed.

Lemma counted_calls cs w :
  counted (sim w) -> counted (sim (run (for_each cs call) w)).
Proof.
  revert w. induction cs as [|c cs IH]; intros w H; [exact H|].
  unfold run. simpl. unfold bind.
  pose proof (counted_call c w H) as Hc. unfold run in Hc.
  destruct (call c w) as [[] w1]. now apply IH.
Qed.

(** C1. In every grid state reached from construction by any sequence of
    [setCell], [swap] and [reset] calls, whatever their coordinates and
    material ids, [particleCount] is the number of cells whose material is
    not AIR; and an in-range [setCell] adds one on an AIR to non-AIR
    transition, removes one on a non-AIR to AIR transition and leaves the
    count alone otherwise. *)
Theorem particle_count_invariant
    (allocates : Z -> bool) (width height : Z) (source : nat -> Q)
    (calls : nat) (w0 : World) (cs : list Call) :
  new_Simulation allocates width height source calls = Some w0 ->
  let w := run (for_each cs call) w0 in
  particleCount (sim w) = count_particles (grid (sim w))
  /\ forall x y materialId props,
       out_of_range (sim w) x y = false ->
       let oldId := Cell.id (getCell x y (sim w)) in
       particleCount (sim (run (setCell x y materialId props) w))
       = particleCount (sim w)
         + (if (oldId =? AIR) && negb (materialId =? AIR) then 1
            else if negb (oldId =? AIR) && (materialId =? AIR) then -1
            else 0).
Proof.
  intros H w.
  assert (Hc : counted (sim w)).
  { apply counted_calls. eapply counted_new, H. }
  split; [apply Hc|].
  intros x y m p Hin oldId.
  destruct (setCell_in x y m p w Hin) as [color ->].
  unfold placed. simpl. subst oldId. unfold getCell. rewrite Hin.
  destruct (_ && _); [reflexivity|]. destruct (_ && _); lia.
Qed.

Lemma particle_count_invariant_witness :
  let cs := [CallSetCell 0 0 SAND no_props; CallSwap 0 0 1 1;
             CallSetCell 5 5 WATER no_props; CallSetCell 1 1 AIR no_props;
             CallReset; CallSetCell 1 0 FIRE no_props] in
  let w := run (for_each cs call) (fresh 2 2) in
  new_Simulation host 2 2 zero_source 0 = Some (fresh 2 2)
  /\ particleCount (sim w) = count_particles (grid (sim w)).
Proof.
  intros cs w.
  assert (H : new_Simulation host 2 2 zero_source 0 = Some (fresh 2 2))
    by (vm_compute; reflexivity).
  split; [exact H|].
  exact (proj1 (particle_count_invariant host 2 2 zero_source 0 (fresh 2 2)
                  cs H)).
Defined.

(** ** Boundary safety *)

(** C7. Outside [0, width) x [0, height), [getCell] answers the synthetic
    immovable boundary cell whatever the cell array holds, and [setCell]
    and [swap] with an out-of-range coordinate pair change nothing: the
    cells, the particle count, the colour cache and the dynamic-cell index
    are those of before. *)
Theorem boundary_safety (w : World) (x y : Z) :
  ~ (0 <= x < width (sim w) /\ 0 <= y < height (sim w)) ->
  getCell x y (sim w) = boundary_cell
  /\ (forall g, getCell x y (with_grid g (sim w)) = boundary_cell)
  /\ Cell.immovable boundary_cell = true
  /\ Mat.immovable (getMaterial (Cell.id boundary_cell)) = true
  /\ (forall materialId props, setCell x y materialId props w = (tt, w))
  /\ (forall x' y', swap x y x' y' (sim w) = sim w
                    /\ swap x' y' x y (sim w) = sim w).
Proof.
  intros H.
  assert (E : out_of_range (sim w) x y = true).
  { destruct (out_of_range (sim w) x y) eqn:E; [reflexivity|].
    apply out_of_range_spec in E. contradiction. }
  repeat split.
  - unfold getCell. now rewrite E.
  - intros g. unfold getCell.
    change (out_of_range (with_grid g (sim w)) x y)
      with (out_of_range (sim w) x y).
    now rewrite E.
  - intros m p. now apply setCell_out.
  - unfold swap. now rewrite E.
  - unfold swap. rewrite E. now destruct (out_of_range (sim w) x' y').
Qed.

Lemma boundary_safety_witness :
  let w := run (setCell 1 1 SAND no_props) (fresh 3 3) in
  getCell 3 1 (sim w) = boundary_cell
  /\ setCell (-1) 1 WATER no_props w = (tt, w)
  /\ swap 1 1 1 3 (sim w) = sim w.
Proof.
  intros w.
  assert (D : width (sim w) = 3 /\ height (sim w) = 3)
    by (vm_compute; split; reflexivity).
  assert (H : ~ (0 <= 3 < width (sim w) /\ 0 <= 1 < height (sim w)))
    by lia.
  assert (H1 : ~ (0 <= -1 < width (sim w) /\ 0 <= 1 < height (sim w)))
    by lia.
  assert (H2 : ~ (0 <= 1 < width (sim w) /\ 0 <= 3 < height (sim w)))
    by lia.
  split; [exact (proj1 (boundary_safety w 3 1 H))|].
  split.
  - exact (proj1 (proj2 (proj2 (proj2 (proj2 (boundary_safety w (-1) 1 H1)))))
             WATER no_props).
  - exact (proj2 (proj2 (proj2 (proj2 (proj2 (proj2
             (boundary_safety w 1 3 H2))))) 1 1)).
Defined.

(** ** Construction *)




(** ** Termination of [drawLine] *)

(** Up to [2 ^ 53] in magnitude every integer is a double. *)
Lemma to_double_exact z : Z.abs z <= 2 ^ 53 -> to_double z = z.
Proof.
  intros H. unfold to_double. cbv zeta.
  destruct (Z.log2 (Z.abs z) <=? 52) eqn:E; [reflexivity|].
  apply Z.leb_gt in E.
  assert (P : 0 < Z.abs z)
    by (destruct (Z.eq_dec (Z.abs z) 0) as [Z0|]; [rewrite Z0 in E; cbn in E|];
        lia).
  assert (L : 2 ^ 53 <= Z.abs z).
  { apply Z.le_trans with (2 ^ Z.log2 (Z.abs z)).
    - apply Z.pow_le_mono_r; lia.
    - now apply Z.log2_spec. }
  assert (A : Z.abs z = 2 ^ 53) by lia.
  destruct (Z.abs_eq_or_opp z) as [Ez|Ez]; rewrite Ez in A.
  - subst z. vm_compute. reflexivity.
  - assert (z = - 2 ^ 53) by lia. subst z. vm_compute. reflexivity.
Qed.

(** While the error term allows a step along an axis, steps are left
    along that axis. *)
Lemma steps_left_along_x a b dx dy err :
  0 <= a <= dx -> 0 <= b <= dy -> 0 < a \/ 0 < b ->
  err = dx - dy + a * dy - b * dx -> - dy < 2 * err -> 0 < a.
Proof.
  intros Ha Hb Hab He C.
  destruct (Z.eq_dec a 0) as [->|]; [|lia].
  assert (dx <= b * dx) by nia. lia.
Qed.

Lemma steps_left_along_y a b dx dy err :
  0 <= a <= dx -> 0 <= b <= dy -> 0 < a \/ 0 < b ->
  err = dx - dy + a * dy - b * dx -> 2 * err < dx -> 0 < b.
Proof.
  intros Ha Hb Hab He C.
  destruct (Z.eq_dec b 0) as [->|]; [|lia].
  assert (dy <= a * dy) by nia. lia.
Qed.

(** With [a] steps left along x and [b] steps left along y, the error
    term in step with them and every number within the exact range, the
    loop breaks within [a + b + 1] iterations. *)
Lemma drawLine_loop_breaks fuel x1 y1 dx dy sx sy materialId radius :
  (sx = 1 \/ sx = -1) -> (sy = 1 \/ sy = -1) ->
  dx <= 2 ^ 51 -> dy <= 2 ^ 51 ->
  Z.abs x1 <= 2 ^ 50 -> Z.abs y1 <= 2 ^ 50 ->
  forall x0 y0 err w a b,
    0 <= a <= dx -> 0 <= b <= dy ->
    x1 = x0 + sx * a -> y1 = y0 + sy * b ->
    Z.abs x0 <= 2 ^ 50 -> Z.abs y0 <= 2 ^ 50 ->
    err = dx - dy + a * dy - b * dx ->
    - 2 * dy <= err <= 2 * dx ->
    (Z.to_nat (a + b) < fuel)%nat ->
    fst (drawLine_loop fuel x1 y1 dx dy sx sy materialId radius x0 y0 err w)
    = true.
Proof.
  intros Hsx Hsy Bdx Bdy Bx1 By1.
  change (2 ^ 50) with 1125899906842624 in *.
  change (2 ^ 51) with 2251799813685248 in *.
  assert (exact : forall z, Z.abs z <= 9007199254740992 -> to_double z = z)
    by (intros z Hz; now apply to_double_exact).
  induction fuel as [|fuel IH];
    intros x0 y0 err w a b Ha Hb Hx Hy Bx0 By0 He Be Hf; [lia|].
  simpl. unfold bind.
  destruct (drawBrush x0 y0 materialId radius circle w) as [u w1].
  destruct ((x0 =? x1) && (y0 =? y1)) eqn:Hend; [reflexivity|].
  assert (Hab : 0 < a \/ 0 < b).
  { destruct (Z.eq_dec a 0) as [->|]; [|lia].
    destruct (Z.eq_dec b 0) as [->|]; [|lia].
    exfalso. replace x1 with x0 in Hend by lia.
    replace y1 with y0 in Hend by lia.
    rewrite !Z.eqb_refl in Hend. discriminate. }
  clear Hend.
  rewrite (exact (2 * err)) by lia.
  destruct (2 * err >? - dy) eqn:C1; destruct (2 * err <? dx) eqn:C2.
  - apply Z.gtb_lt in C1. apply Z.ltb_lt in C2.
    pose proof (steps_left_along_x a b dx dy err Ha Hb Hab He C1) as Pa.
    pose proof (steps_left_along_y a b dx dy err Ha Hb Hab He C2) as Pb.
    assert (Mx : Z.abs (x0 + sx) <= 1125899906842624)
      by (destruct Hsx; subst sx; lia).
    assert (My : Z.abs (y0 + sy) <= 1125899906842624)
      by (destruct Hsy; subst sy; lia).
    rewrite (exact (err - dy)) by lia.
    rewrite (exact (x0 + sx)) by lia.
    rewrite (exact (err - dy + dx)) by lia.
    rewrite (exact (y0 + sy)) by lia.
    apply (IH _ _ _ _ (a - 1) (b - 1)); lia.
  - apply Z.gtb_lt in C1. apply Z.ltb_ge in C2.
    pose proof (steps_left_along_x a b dx dy err Ha Hb Hab He C1) as Pa.
    assert (Mx : Z.abs (x0 + sx) <= 1125899906842624)
      by (destruct Hsx; subst sx; lia).
    rewrite (exact (err - dy)) by lia.
    rewrite (exact (x0 + sx)) by lia.
    apply (IH _ _ _ _ (a - 1) b); lia.
  - assert (C1' : 2 * err <= - dy) by (apply Z.gtb_ltb in C1 || idtac; lia).
    apply Z.ltb_lt in C2.
    pose proof (steps_left_along_y a b dx dy err Ha Hb Hab He C2) as Pb.
    assert (My : Z.abs (y0 + sy) <= 1125899906842624)
      by (destruct Hsy; subst sy; lia).
    rewrite (exact (err + dx)) by lia.
    rewrite (exact (y0 + sy)) by lia.
    apply (IH _ _ _ _ a (b - 1)); lia.
  - exfalso. lia.
Qed.

(** C10, as the code has it. For endpoints of magnitude at most [2 ^ 50]
    and a radius below [2 ^ 53], whatever the material id, [drawLine]
    terminates: its loop is left through the [break] within
    [|x1 - x0| + |y1 - y0| + 1] iterations, and every larger iteration
    budget gives that same outcome.  (Within these bounds every number
    of the loop is an exact double, and the two [for] loops of the brush
    stamped at each step count from [- radius] to [radius] without
    stalling.) *)
Theorem drawLine_terminates (x0 y0 x1 y1 materialId radius : Z)
    (w : World) (extra : nat) :
  Z.abs x0 <= 2 ^ 50 -> Z.abs y0 <= 2 ^ 50 ->
  Z.abs x1 <= 2 ^ 50 -> Z.abs y1 <= 2 ^ 50 ->
  radius < 2 ^ 53 ->
  fst (drawLine (S (Z.to_nat (Z.abs (x1 - x0) + Z.abs (y1 - y0))) + extra)
         x0 y0 x1 y1 materialId radius w) = true.
Proof.
  intros Bx0 By0 Bx1 By1 _.
  assert (P50 : 2 ^ 50 = 1125899906842624) by reflexivity.
  assert (P51 : 2 ^ 51 = 2251799813685248) by reflexivity.
  assert (P53 : 2 ^ 53 = 9007199254740992) by reflexivity.
  unfold drawLine. cbv zeta.
  rewrite (to_double_exact (x1 - x0)) by lia.
  rewrite (to_double_exact (y1 - y0)) by lia.
  rewrite (to_double_exact (Z.abs (x1 - x0) - Z.abs (y1 - y0))) by lia.
  apply drawLine_loop_breaks
    with (a := Z.abs (x1 - x0)) (b := Z.abs (y1 - y0));
    try (destruct (x0 <? x1) eqn:E; lia);
    try (destruct (y0 <? y1) eqn:E; lia).
Qed.

Lemma drawLine_terminates_witness :
  fst (drawLine (S (Z.to_nat (Z.abs (3 - 0) + Z.abs (1 - 0))) + 0)
         0 0 3 1 WATER 0 (fresh 4 4)) = true.
Proof.
  exact (drawLine_terminates 0 0 3 1 WATER 0 (fresh 4 4) 0
           ltac:(vm_compute; discriminate) ltac:(vm_compute; discriminate)
           ltac:(vm_compute; discriminate) ltac:(vm_compute; discriminate)
           ltac:(vm_compute; reflexivity)).
Defined.

(** From [2 ^ 53] on, adding 1 to a coordinate gives the coordinate
    back. *)
Lemma drawLine_loop_stalls fuel materialId radius :
  forall x0 w,
    2 ^ 53 - 2 <= x0 <= 2 ^ 53 ->
    fst (drawLine_loop fuel (2 ^ 53 + 2) 0 4 0 1 (-1) materialId radius
           x0 0 4 w) = false.
Proof.
  induction fuel as [|fuel IH]; intros x0 w Hx0; [reflexivity|].
  simpl. unfold bind.
  destruct (drawBrush x0 0 materialId radius circle w) as [u w1].
  change (2 ^ 53) with 9007199254740992 in *.
  destruct (x0 =? 9007199254740992 + 2) eqn:E;
    [apply Z.eqb_eq in E; lia|].
  cbn [andb]. change (to_double (4 - 0)) with 4.
  apply IH.
  assert (C : x0 = 9007199254740990 \/ x0 = 9007199254740991
              \/ x0 = 9007199254740992) by lia.
  destruct C as [C|[C|C]]; subst x0; vm_compute; split; discriminate.
Qed.

(** C10 fails as stated: with doubles, a line from [2 ^ 53 - 2] to
    [2 ^ 53 + 2] never reaches its endpoint, whatever the number of
    iterations, since [x0 += sx] stops advancing at [2 ^ 53]. *)
Lemma drawLine_never_ends_from_2_53 :
  ~ (exists fuel,
       fst (drawLine fuel (2 ^ 53 - 2) 0 (2 ^ 53 + 2) 0 SAND 0 (fresh 3 3))
       = true).
Proof.
  intros [fuel E]. revert E. unfold drawLine. cbv zeta.
  change (to_double (2 ^ 53 + 2 - (2 ^ 53 - 2))) with 4.
  change (to_double (0 - 0)) with 0.
  change (Z.abs 4) with 4. change (Z.abs 0) with 0.
  change (to_double (4 - 0)) with 4.
  change (if 2 ^ 53 - 2 <? 2 ^ 53 + 2 then 1 else -1) with 1.
  change (if 0 <? 0 then 1 else -1) with (-1).
  rewrite drawLine_loop_stalls; [discriminate|].
  change (2 ^ 53) with 9007199254740992. lia.
Qed.

(** ** The dynamic-cell index under [swap] *)

(** C4, at its failing input. SAND (procedural colour) at (0,0) above AIR
    (fixed colour) on a 1 x 2 grid: before the swap the index is exactly
    the set of procedural cells; [swap(0,0,0,1)] moves the SAND to slot 1
    and leaves the index at slot 0, which now holds AIR. *)
Theorem swap_misplaces_dynamic_cell :
  let w := run (setCell 0 0 SAND no_props) (fresh 1 2) in
  let s := swap 0 0 0 1 (sim w) in
  dynamicCells (sim w) = [0%nat] /\ procedural_cells (sim w) = [0%nat]
  /\ map Cell.id (grid s) = [AIR; SAND]
  /\ procedural_cells s = [1%nat]
  /\ dynamicCells s = [0%nat].
Proof. vm_compute. repeat split. Qed.

(** C8, at its failing input. SAND at (0,0) and WATER at (0,1), both
    procedural: two successive [swap(0,0,0,1)] restore the cells and the
    colour bytes, and drop slot 1 from the dynamic-cell index. *)
Theorem swap_twice_drops_dynamic_cell :
  let w := run (setCell 0 1 WATER no_props)
             (run (setCell 0 0 SAND no_props) (fresh 1 2)) in
  let s := sim w in
  let s2 := swap 0 0 0 1 (swap 0 0 0 1 s) in
  grid s2 = grid s /\ colorCache s2 = colorCache s
  /\ dynamicCells s = [0%nat; 1%nat]
  /\ dynamicCells s2 = [0%nat].
Proof. vm_compute. repeat split. Qed.

(** ** Visits of the physics step within one tick *)

(** C3, at its failing input. STEAM at the bottom of a 1 x 3 column, every
    draw of the random source 0.  Processing a gas cell decrements its
    life by one.  One tick takes the steam from row 2 to row 0 and its
    life from 300 to 297: the cell was processed in each of the three rows
    of the sweep.  No cell carries a stamp afterwards. *)
Theorem rising_steam_processed_thrice :
  let w := run (setCell 0 2 STEAM no_props) (fresh 1 3) in
  getCell 0 2 (sim w) = Cell.mk STEAM (Some 300) (Some 100) None false
  /\ getCell 0 1 (sim (run (PhysicsEngine.update 0 2) w))
     = Cell.mk STEAM (Some 299) (Some 100) None false
  /\ getCell 0 0 (sim (run tick w))
     = Cell.mk STEAM (Some 297) (Some 100) None false
  /\ Forall (fun c => Cell.updated c = None) (grid (sim (run tick w))).
Proof. vm_compute. repeat split; repeat constructor. Qed.

(** ** Rule families of the interaction step *)

(** C2 fails as stated: with WATER at (1,1), LAVA above it and SAND below
    it, and every draw 0, the phase-change family applies first and turns
    the WATER into STEAM, and the evaluation goes on: the erosion family
    still turns the SAND below into MUD. *)
Lemma families_do_not_short_circuit :
  let w := water_between_lava_and_sand in
  let cell := getCell 1 1 (sim w) in
  let neighbors := InteractionsEngine.getNeighbors 1 1 (sim w) in
  let melted :=
    InteractionsEngine.checkMelting 1 1 cell (getMaterial (Cell.id cell))
      neighbors w in
  let after := run (InteractionsEngine.update 1 1) w in
  map Cell.id (grid (sim w)) = [AIR; LAVA; AIR; AIR; WATER; AIR; AIR; SAND; AIR]
  /\ fst melted = true
  /\ map Cell.id (grid (sim (snd melted)))
     = [AIR; LAVA; AIR; AIR; STEAM; AIR; AIR; SAND; AIR]
  /\ map Cell.id (grid (sim after))
     = [AIR; LAVA; AIR; AIR; STEAM; AIR; AIR; MUD; AIR].
Proof. vm_compute. repeat split. Qed.

Section FamiliesFacts.

Import InteractionsEngine Families.

Lemma update_runs_all x y w :
  let cell := getCell x y (sim w) in
  update x y w
  = if Cell.id cell =? AIR then (false, w)
    else run_all families x y cell (getMaterial (Cell.id cell))
           (getNeighbors x y (sim w)) w.
Proof.
  unfold update, bind, gets. cbv beta iota zeta.
  destruct (Cell.id (getCell x y (sim w)) =? AIR); [reflexivity|].
  unfold families, run_all, bind, ret.
  repeat match goal with
         | |- context [let (_, _) := ?f x y ?c ?m ?n ?w0 in _] =>
             destruct (f x y c m n w0) as [[] ?]
         end; reflexivity.
Qed.

Lemma checkMelting_idle x y cell mat neighbors w :
  Cell.id cell <> ICE -> Cell.id cell <> WATER ->
  checkMelting x y cell mat neighbors w = (false, w).
Proof.
  intros H1 H2. unfold checkMelting.
  apply Z.eqb_neq in H1, H2. now rewrite H1, H2.
Qed.

Lemma checkBurning_idle x y cell mat neighbors w :
  Mat.flammable mat = false ->
  checkBurning x y cell mat neighbors w = (false, w).
Proof. intros H. unfold checkBurning. now rewrite H. Qed.

Lemma checkMixing_idle x y cell mat neighbors w :
  Cell.id cell <> SAND -> Cell.id cell <> DIRT -> Cell.id cell <> LAVA ->
  Cell.id cell <> WATER ->
  checkMixing x y cell mat neighbors w = (false, w).
Proof.
  intros H1 H2 H3 H4. unfold checkMixing.
  apply Z.eqb_neq in H1, H2, H3, H4. now rewrite H1, H2, H3, H4.
Qed.

Lemma checkGrowing_idle x y cell mat neighbors w :
  Cell.id cell <> GRASS -> Cell.id cell <> PLANT ->
  checkGrowing x y cell mat neighbors w = (false, w).
Proof.
  intros H1 H2. unfold checkGrowing.
  apply Z.eqb_neq in H1, H2. now rewrite H1, H2.
Qed.

Lemma checkConduction_idle x y cell mat neighbors w :
  Cell.id cell <> ELECTRICITY ->
  checkConduction x y cell mat neighbors w = (false, w).
Proof.
  intros H. unfold checkConduction. apply Z.eqb_neq in H. now rewrite H.
Qed.

Lemma checkErosion_idle x y cell mat neighbors w :
  Cell.id cell <> WATER ->
  checkErosion x y cell mat neighbors w = (false, w).
Proof.
  intros H. unfold checkErosion. apply Z.eqb_neq in H. now rewrite H.
Qed.

Lemma flammable_ids id :
  Mat.flammable (getMaterial id) = true ->
  id ∈ [OIL; GAS; GRASS; PLANT; WOOD; CHARCOAL].
Proof.
  intros H.
  assert (T : Mat.flammable (getMaterial id) = true ->
              Mat.id (getMaterial id) ∈ [OIL; GAS; GRASS; PLANT; WOOD; CHARCOAL]).
  { pattern (getMaterial id). apply table_ind.
    repeat constructor; discriminate. }
  destruct (getMaterial_id id) as [E | E].
  - rewrite <- E. auto.
  - rewrite E in H. discriminate.
Qed.

End FamiliesFacts.

(** C2, as the code has it. The six rule families are run in that fixed
    order, each on the cell, material and neighbours read before the
    first of them ran, and every one of them is run whatever the earlier
    ones did.  For a cell whose material is not WATER, GRASS or PLANT all
    families but one do nothing, so that the evaluation is that of a
    single family. *)
Theorem interaction_families (x y : Z) (w : World) :
  let cell := getCell x y (sim w) in
  let mat := getMaterial (Cell.id cell) in
  let neighbors := InteractionsEngine.getNeighbors x y (sim w) in
  InteractionsEngine.update x y w
  = (if Cell.id cell =? AIR then (false, w)
     else Families.run_all Families.families x y cell mat neighbors w)
  /\ (Cell.id cell <> WATER -> Cell.id cell <> GRASS ->
      Cell.id cell <> PLANT ->
      exists f, f ∈ Families.families
                /\ InteractionsEngine.update x y w
                   = f x y cell mat neighbors w).
Proof.
  intros cell mat neighbors.
  pose proof (update_runs_all x y w) as U. cbv zeta in U.
  fold cell mat neighbors in U. split; [exact U|].
  rewrite U. clear U. intros HW HG HP.
  assert (HF : Mat.flammable mat = true ->
               Cell.id cell ∈ [OIL; GAS; GRASS; PLANT; WOOD; CHARCOAL])
    by apply flammable_ids.
  assert (HN : forall id, Cell.id cell = id ->
                 Mat.flammable (getMaterial id) = false ->
                 Mat.flammable mat = false)
    by (intros id <-; auto).
  clearbody mat neighbors cell.
  destruct (Z.eq_dec (Cell.id cell) ICE) as [E|NI];
    [|destruct (Z.eq_dec (Cell.id cell) ELECTRICITY) as [E|NE];
      [|destruct (Z.eq_dec (Cell.id cell) SAND) as [E|NS];
        [|destruct (Z.eq_dec (Cell.id cell) DIRT) as [E|ND];
          [|destruct (Z.eq_dec (Cell.id cell) LAVA) as [E|NL];
            [|destruct (Mat.flammable mat) eqn:F]]]]].
  all: try (assert (F : Mat.flammable mat = false)
              by (apply (HN _ E); reflexivity)).
  all: try (specialize (HF eq_refl); rewrite !elem_of_cons in HF;
            rewrite elem_of_nil in HF).
  1: exists InteractionsEngine.checkMelting.
  2: exists InteractionsEngine.checkConduction.
  3, 4, 5: exists InteractionsEngine.checkMixing.
  6: exists InteractionsEngine.checkBurning.
  7: exists InteractionsEngine.checkErosion.
  all: (split; [unfold Families.families; repeat constructor|]).
  all: destruct (Cell.id cell =? AIR) eqn:A;
    [apply Z.eqb_eq in A|apply Z.eqb_neq in A].
  all: unfold Families.families, Families.run_all, bind, ret.
  all: repeat
         (cbv beta iota;
          first
            [ progress
                rewrite ?checkMelting_idle,
                  ?checkBurning_idle, ?checkMixing_idle,
                  ?checkGrowing_idle, ?checkConduction_idle,
                  ?checkErosion_idle
                by first [ exact F
                         | unfold ICE, ELECTRICITY, SAND, DIRT, LAVA, WATER,
                             GRASS, PLANT, AIR, OIL, GAS, WOOD, CHARCOAL in *;
                           lia ]
            | match goal with
              | |- context [let (_, _) := ?f ?a ?b ?c ?m ?n ?w0 in _] =>
                  destruct (f a b c m n w0) as [[] ?]
              end ]).
  all: reflexivity.
Qed.

(** ** Explosion containment *)


Lemma getCell_aged_id a b x y v s :
  Cell.id (getCell a b (aged x y v s)) = Cell.id (getCell a b s).
Proof.
  unfold getCell, aged.
  change (out_of_range (with_grid _ s) a b) with (out_of_range s a b).
  destruct (out_of_range s a b); [reflexivity|].
  change (index (with_grid _ s) a b) with (index s a b).
  cbn [grid with_grid]. rewrite list_lookup_total_insert.
  destruct (decide _) as [[<- _]|]; reflexivity.
Qed.





Lemma interaction_families_witness :
  let w := run (setCell 1 1 LAVA no_props) (fresh 3 3) in
  exists f, f ∈ Families.families
            /\ InteractionsEngine.update 1 1 w
               = f 1 1 (getCell 1 1 (sim w))
                   (getMaterial (Cell.id (getCell 1 1 (sim w))))
                   (InteractionsEngine.getNeighbors 1 1 (sim w)) w.
Proof.
  intros w.
  assert (H1 : Cell.id (getCell 1 1 (sim w)) <> WATER)
    by (vm_compute; discriminate).
  assert (H2 : Cell.id (getCell 1 1 (sim w)) <> GRASS)
    by (vm_compute; discriminate).
  assert (H3 : Cell.id (getCell 1 1 (sim w)) <> PLANT)
    by (vm_compute; discriminate).
  exact (proj2 (interaction_families 1 1 w) H1 H2 H3).
Defined.

(** ** Where STONE can appear *)

Lemma stones_ext s s' :
  width s' = width s -> height s' = height s -> grid s' = grid s ->
  stones_on_lattice s -> stones_on_lattice s'.
Proof.
  intros Hw Hh Hg H x y. unfold getCell, out_of_range, index.
  rewrite Hw, Hh, Hg. apply H.
Qed.

Lemma index_inj s x y x' y' :
  out_of_range s x y = false -> out_of_range s x' y' = false ->
  index s x y = index s x' y' -> x = x' /\ y = y'.
Proof.
  intros H H'. apply out_of_range_spec in H, H'. unfold index. intros E.
  apply Z2Nat.inj in E; [|nia|nia].
  assert (y = y') by nia. subst. lia.
Qed.

Lemma stones_swap x1 y1 x2 y2 s :
  stones_on_lattice s ->
  Cell.id (getCell x1 y1 s) <> STONE -> Cell.id (getCell x2 y2 s) <> STONE ->
  stones_on_lattice (swap x1 y1 x2 y2 s).
Proof.
  intros H N1 N2. unfold swap.
  destruct (out_of_range s x1 y1) eqn:O1; [exact H|].
  destruct (out_of_range s x2 y2) eqn:O2; [exact H|].
  intros x y. unfold getCell in *. rewrite O1 in N1. rewrite O2 in N2.
  change (out_of_range (with_dynamicCells _ _) x y)
    with (out_of_range s x y).
  intros O. rewrite O.
  change (index (with_dynamicCells _ _) x y) with (index s x y).
  cbn [grid with_dynamicCells with_colorCache with_grid].
  rewrite !list_lookup_total_insert.
  repeat destruct (decide _); try contradiction.
  intros E. apply H; [exact O|]. unfold getCell. now rewrite O.
Qed.

Lemma stones_placed x y m p color s :
  stones_on_lattice s -> out_of_range s x y = false ->
  m <> STONE \/ Z.rem (x + y) 3 = 0 ->
  stones_on_lattice (placed x y m p color s).
Proof.
  intros H O Hm a b. unfold getCell, placed.
  change (out_of_range (mkSimulation _ _ _ _ _ _ _) a b)
    with (out_of_range s a b).
  intros Oa. rewrite Oa.
  change (index (mkSimulation _ _ _ _ _ _ _) a b) with (index s a b).
  cbn [grid]. rewrite list_lookup_total_insert.
  destruct (decide _) as [[E _]|_].
  - cbn [Cell.id]. intros ->. destruct Hm as [Hm|Hm]; [contradiction|].
    apply index_inj in E as [-> ->]; auto.
  - intros E. apply H; [exact Oa|]. unfold getCell. now rewrite Oa.
Qed.

Lemma stones_aged x y v s :
  stones_on_lattice s -> stones_on_lattice (aged x y v s).
Proof.
  intros H a b O. rewrite getCell_aged_id. now apply H.
Qed.

Section FixedSize.

Variables wd ht : Z.

Abbreviation on_lattice := (stone_on_lattice wd ht).

Lemma lattice_ext s s' :
  width s' = width s -> height s' = height s -> grid s' = grid s ->
  on_lattice s -> on_lattice s'.
Proof.
  intros Hw Hh Hg (W & H & L). repeat split; try congruence.
  now apply (stones_ext s).
Qed.

Lemma lattice_swap x1 y1 x2 y2 s :
  on_lattice s ->
  Cell.id (getCell x1 y1 s) <> STONE -> Cell.id (getCell x2 y2 s) <> STONE ->
  on_lattice (swap x1 y1 x2 y2 s).
Proof.
  intros (W & H & L) N1 N2.
  split; [|split; [|now apply stones_swap]];
    unfold swap; destruct (out_of_range s x1 y1);
    try destruct (out_of_range s x2 y2); assumption.
Qed.

Lemma lattice_placed x y m p color s :
  on_lattice s -> out_of_range s x y = false ->
  m <> STONE \/ Z.rem (x + y) 3 = 0 ->
  on_lattice (placed x y m p color s).
Proof.
  intros (W & H & L) O Hm. repeat split; try assumption.
  now apply stones_placed.
Qed.

Lemma lattice_aged x y v s :
  on_lattice s -> on_lattice (aged x y v s).
Proof.
  intros (W & H & L). repeat split; try assumption.
  now apply stones_aged.
Qed.

Lemma setCell_keeps_lattice x y m p w :
  on_lattice (sim w) ->
  m <> STONE \/ Z.rem (x + y) 3 = 0 ->
  wp (setCell x y m p) (fun _ w' => on_lattice (sim w')) w.
Proof.
  intros H Hm. unfold wp.
  destruct (out_of_range (sim w) x y) eqn:O.
  - now rewrite setCell_out.
  - destruct (setCell_in x y m p w O) as [color E]. unfold run in E.
    rewrite E. now apply lattice_placed.
Qed.

Lemma wp_set_life x y v Q w :
  Q tt (mkWorld (aged x y v (sim w)) (random_source w) (random_calls w)) ->
  wp (PhysicsEngine.set_life x y v) Q w.
Proof. exact (fun H => H). Qed.

(** Ways to know that a cell is not STONE. *)
Lemma air_not_stone id : (id =? AIR) = true -> id <> STONE.
Proof. unfold AIR, STONE. lia. Qed.

Lemma movable_not_stone id :
  Mat.immovable (getMaterial id) = false -> id <> STONE.
Proof. intros H ->. discriminate H. Qed.

Lemma liquid_not_stone id :
  PhysicsEngine.is_state STATE.LIQUID (getMaterial id) = true -> id <> STONE.
Proof. intros H ->. discriminate H. Qed.

Lemma same_not_stone id id' :
  (id =? id') = true -> id' <> STONE -> id <> STONE.
Proof. intros H. apply Z.eqb_eq in H. now subst. Qed.

Lemma tame_getMaterial id : tame (getMaterial id).
Proof.
  pattern (getMaterial id). apply table_ind.
  repeat constructor; discriminate.
Qed.

Ltac break_bools :=
  repeat match goal with
         | H : _ && _ = true |- _ => apply andb_prop in H; destruct H
         | H : _ || _ = true |- _ => apply orb_prop in H; destruct H
         | H : negb _ = true |- _ => apply negb_true_iff in H
         end.

Ltac not_stone :=
  cbn [sim] in *; rewrite ?getCell_aged_id in *; break_bools;
  first [ assumption
        | apply air_not_stone; assumption
        | apply liquid_not_stone; assumption
        | apply movable_not_stone; assumption
        | eapply same_not_stone; [eassumption | assumption] ].

Ltac lattice_goal :=
  cbn [sim] in *;
  lazymatch goal with
  | |- on_lattice (aged _ _ _ _) => apply lattice_aged; lattice_goal
  | |- on_lattice (swap _ _ _ _ _) =>
      apply lattice_swap; [lattice_goal | not_stone | not_stone]
  | |- _ => assumption
  end.

(** A step of symbolic execution that carries [stone_on_lattice] across
    the calls that write cells. *)
Ltac keep_step :=
  lazymatch goal with
  | |- wp (PhysicsEngine.set_life _ _ _) _ _ =>
      apply wp_set_life; cbv beta; cbn [sim random_source random_calls]
  | |- wp (setCell _ _ _ _) _ _ =>
      apply (wp_mono _ (fun _ w' => on_lattice (sim w')));
      [ apply setCell_keeps_lattice;
        [ lattice_goal
        | first [ left; discriminate | left; assumption | right; assumption ] ]
      | intros [] ? ?; cbv beta ]
  | |- _ => wp_step
  end.

Ltac keep_steps := repeat keep_step.

Section PhysicsKeepsLattice.

Import PhysicsEngine.

Variables x y : Z.

Abbreviation kept := (fun (_ : bool) w' => on_lattice (sim w')).

Lemma tryPowderSlide_keeps dir cell mat w :
  on_lattice (sim w) -> Cell.id (getCell x y (sim w)) <> STONE ->
  wp (tryPowderSlide x y dir cell mat)
     (fun r w' => on_lattice (sim w') /\ (r = false -> w' = w)) w.
Proof.
  intros HJ N. unfold tryPowderSlide. wp_steps.
  - split; [lattice_goal | discriminate].
  - split; [lattice_goal | reflexivity].
Qed.

Lemma updatePowder_keeps cell mat w :
  on_lattice (sim w) -> Cell.id (getCell x y (sim w)) <> STONE ->
  wp (updatePowder x y cell mat) kept w.
Proof.
  intros HJ N. unfold updatePowder. wp_steps; try lattice_goal.
  eapply wp_mono; [apply tryPowderSlide_keeps; lattice_goal|].
  intros first w1 [H1 E1]. wp_steps; [exact H1|].
  specialize (E1 eq_refl). subst w1.
  eapply wp_mono; [apply tryPowderSlide_keeps; lattice_goal|].
  intros second w2 [H2 _]. wp_steps; exact H2.
Qed.

Lemma spreadLiquid_keeps dir cell w :
  on_lattice (sim w) -> Cell.id (getCell x y (sim w)) <> STONE ->
  Cell.id cell <> STONE -> dir = 1 \/ dir = -1 ->
  wp (spreadLiquid x y dir cell) kept w.
Proof.
  intros HJ N Nc [-> | ->]; unfold spreadLiquid;
    change (x + -1) with (x - 1); wp_steps; lattice_goal.
Qed.

Lemma updateLiquid_keeps cell mat w :
  on_lattice (sim w) -> Cell.id (getCell x y (sim w)) <> STONE ->
  Cell.id cell <> STONE ->
  wp (updateLiquid x y cell mat) kept w.
Proof.
  intros HJ N Nc. unfold updateLiquid. wp_steps; try lattice_goal.
  all: apply spreadLiquid_keeps;
    first [ lattice_goal
          | match goal with
            | |- (if ?c then _ else _) = _ \/ _ => destruct c; auto
            end ].
Qed.

Lemma updateSolid_keeps cell mat w :
  on_lattice (sim w) -> Cell.id (getCell x y (sim w)) <> STONE ->
  wp (updateSolid x y cell mat) kept w.
Proof.
  intros HJ N. unfold updateSolid. wp_steps; lattice_goal.
Qed.

Lemma updateGas_keeps cell mat w :
  on_lattice (sim w) -> Cell.id (getCell x y (sim w)) <> STONE ->
  tame mat ->
  wp (updateGas x y cell mat) kept w.
Proof.
  intros HJ N [T1 T2]. unfold updateGas. keep_steps; lattice_goal.
Qed.

Lemma explosionForce_keeps w :
  on_lattice (sim w) ->
  wp (explosionForce x y) (fun _ w' => on_lattice (sim w')) w.
Proof.
  unfold explosionForce.
  apply (wp_for_each (fun w' => on_lattice (sim w'))).
  intros dy w1 _ H1.
  apply (wp_for_each (fun w' => on_lattice (sim w'))); [|exact H1].
  intros dx w2 _ H2. wp_steps; lattice_goal.
Qed.

Lemma updateEnergy_keeps cell mat w :
  on_lattice (sim w) -> Cell.id (getCell x y (sim w)) <> STONE ->
  tame mat ->
  wp (updateEnergy x y cell mat) kept w.
Proof.
  intros HJ N [T1 T2]. unfold updateEnergy. keep_steps; try lattice_goal.
  all: apply (wp_mono _ (fun _ w' => on_lattice (sim w')));
    [ apply explosionForce_keeps; lattice_goal
    | intros [] w' H'; wp_steps; exact H' ].
Qed.

Lemma update_keeps w :
  on_lattice (sim w) -> wp (update x y) kept w.
Proof.
  intros HJ. unfold update. wp_steps; try lattice_goal.
  pose proof (tame_getMaterial (Cell.id (getCell x y (sim w)))) as T.
  assert (N : Cell.id (getCell x y (sim w)) <> STONE)
    by now apply movable_not_stone.
  destruct (Mat.state _).
  - now apply updateSolid_keeps.
  - now apply updatePowder_keeps.
  - now apply updateLiquid_keeps.
  - now apply updateGas_keeps.
  - now apply updateEnergy_keeps.
Qed.

End PhysicsKeepsLattice.

(** The same step, with loops handled by their invariant. *)
Ltac keep_loop_step :=
  lazymatch goal with
  | |- wp (for_return _ _) _ _ =>
      apply (wp_mono _ (fun _ w' => on_lattice (sim w')));
      [ apply (wp_for_return (fun w' => on_lattice (sim w')));
        [ intros ? ? _ ? | lattice_goal ]
      | intros ? ? ?; cbv beta ]
  | |- wp (for_each _ _) _ _ =>
      apply (wp_mono _ (fun _ w' => on_lattice (sim w')));
      [ apply (wp_for_each (fun w' => on_lattice (sim w')));
        [ intros ? ? _ ? | lattice_goal ]
      | intros ? ? ?; cbv beta ]
  | |- wp (InteractionsEngine.or_else _ _) _ _ =>
      unfold InteractionsEngine.or_else
  | |- wp (InteractionsEngine.burn _ _ _ _) _ _ =>
      unfold InteractionsEngine.burn
  | |- _ => keep_step
  end.

Ltac keep_loop_steps := repeat keep_loop_step.

Section InteractionsKeepLattice.

Import InteractionsEngine.

Variables x y : Z.
Hypothesis multiple_of_3 : Z.rem (x + y) 3 = 0.

Abbreviation kept := (fun (_ : bool) w' => on_lattice (sim w')).

Lemma checkMelting_keeps cell mat neighbors w :
  on_lattice (sim w) ->
  wp (checkMelting x y cell mat neighbors) kept w.
Proof.
  intros HJ. unfold checkMelting. keep_loop_steps; lattice_goal.
Qed.

Lemma checkBurning_keeps cell mat neighbors w :
  on_lattice (sim w) ->
  wp (checkBurning x y cell mat neighbors) kept w.
Proof.
  intros HJ. unfold checkBurning. keep_loop_steps; lattice_goal.
Qed.

Lemma checkMixing_keeps cell mat neighbors w :
  on_lattice (sim w) ->
  wp (checkMixing x y cell mat neighbors) kept w.
Proof.
  intros HJ. unfold checkMixing. keep_loop_steps; lattice_goal.
Qed.

Lemma checkGrowing_keeps cell mat neighbors w :
  on_lattice (sim w) ->
  wp (checkGrowing x y cell mat neighbors) kept w.
Proof.
  intros HJ. unfold checkGrowing. keep_loop_steps; lattice_goal.
Qed.

Lemma checkConduction_keeps cell mat neighbors w :
  on_lattice (sim w) ->
  wp (checkConduction x y cell mat neighbors) kept w.
Proof.
  intros HJ. unfold checkConduction. keep_loop_steps; lattice_goal.
Qed.

Lemma checkErosion_keeps cell mat neighbors w :
  on_lattice (sim w) ->
  wp (checkErosion x y cell mat neighbors) kept w.
Proof.
  intros HJ. unfold checkErosion. keep_loop_steps; lattice_goal.
Qed.

Lemma interactions_update_keeps w :
  on_lattice (sim w) -> wp (update x y) kept w.
Proof.
  intros HJ. unfold update. wp_steps; [exact HJ|].
  apply (wp_mono _ kept); [now apply checkMelting_keeps|].
  intros c1 w1 H1. wp_steps.
  apply (wp_mono _ kept); [now apply checkBurning_keeps|].
  intros c2 w2 H2. wp_steps.
  apply (wp_mono _ kept); [now apply checkMixing_keeps|].
  intros c3 w3 H3. wp_steps.
  apply (wp_mono _ kept); [now apply checkGrowing_keeps|].
  intros c4 w4 H4. wp_steps.
  apply (wp_mono _ kept); [now apply checkConduction_keeps|].
  intros c5 w5 H5. wp_steps.
  apply (wp_mono _ kept); [now apply checkErosion_keeps|].
  intros c6 w6 H6. wp_steps. exact H6.
Qed.

End InteractionsKeepLattice.

Lemma updateDynamicColors_keeps w :
  on_lattice (sim w) ->
  wp updateDynamicColors (fun _ w' => on_lattice (sim w')) w.
Proof.
  intros HJ. unfold updateDynamicColors. wp_steps.
  apply (wp_for_each (fun w' => on_lattice (sim w'))); [|exact HJ].
  intros idx w1 _ H1. wp_steps.
  pose proof (sample_color_sim (Cell.id (grid (sim w1) !!! idx)) w1) as S.
  unfold sample_color in S.
  destruct (Mat.color _) as [rgb|sample]; [wp_steps; exact H1|].
  wp_steps. apply (wp_mono _ (fun _ w' => sim w' = sim w1)); [exact S|].
  intros color w2 E. wp_steps. cbn [sim]. rewrite E.
  now apply (lattice_ext (sim w1)).
Qed.

Lemma tick_keeps w :
  on_lattice (sim w) ->
  wp tick (fun _ w' => on_lattice (sim w')) w.
Proof.
  intros HJ. unfold tick. wp_steps.
  assert (H0 : on_lattice (with_frameCount (frameCount (sim w) + 1)
                                   (sim w)))
    by now apply (lattice_ext (sim w)).
  destruct (Z.rem _ 2 =? 0) eqn:even.
  all: apply (wp_mono _ (fun _ w' => on_lattice (sim w')));
    [ apply (wp_for_each (fun w' => on_lattice (sim w')));
      [|exact H0];
      intros y w1 _ H1;
      apply (wp_for_each (fun w' => on_lattice (sim w')));
      [|exact H1];
      intros x w2 _ H2; wp_steps;
      apply (wp_mono _ (fun _ w' => on_lattice (sim w')));
      [ now apply update_keeps
      | intros moved w3 H3; wp_steps; exact H3 ]
    | intros [] w1 H1; wp_steps ].
  2: now apply updateDynamicColors_keeps.
  apply (wp_mono _ (fun _ w' => on_lattice (sim w'))).
  - apply (wp_for_each (fun w' => on_lattice (sim w'))); [|exact H1].
    intros y w2 _ H2.
    apply (wp_for_each (fun w' => on_lattice (sim w'))); [|exact H2].
    intros x w3 _ H3. unfold when.
    destruct (Z.rem (x + y) 3 =? 0) eqn:L; [|exact H3].
    apply Z.eqb_eq in L. wp_steps.
    apply (wp_mono _ (fun _ w' => on_lattice (sim w')));
      [now apply interactions_update_keeps|].
    intros changed w4 H4. wp_steps. exact H4.
  - intros [] w2 H2. now apply updateDynamicColors_keeps.
Qed.

Lemma ticks_keep n w :
  on_lattice (sim w) -> on_lattice (sim (run (ticks n) w)).
Proof.
  revert w. induction n as [|n IH]; intros w HJ; [exact HJ|].
  apply wp_run. simpl. wp_steps.
  apply (wp_mono _ (fun _ w' => on_lattice (sim w')));
    [now apply tick_keeps|].
  intros [] w1 H1. now apply IH.
Qed.

End FixedSize.

(** ** The LAVA and WATER scenario *)

Lemma fresh_on_lattice allocates wd ht source calls w0 :
  new_Simulation allocates wd ht source calls = Some w0 ->
  stone_on_lattice wd ht (sim w0).
Proof.
  intros H. apply new_Simulation_sim in H as [cache ->].
  repeat split. intros x y O. unfold getCell. rewrite O. cbn [grid].
  rewrite list_lookup_total_alt.
  destruct (replicate _ _ !! _) as [c|] eqn:E; [|discriminate].
  apply lookup_replicate in E as [-> _]. discriminate.
Qed.

Lemma start_on_lattice allocates wd ht source calls w0 :
  new_Simulation allocates wd ht source calls = Some w0 ->
  stone_on_lattice wd ht (sim (lava_next_to_water w0)).
Proof.
  intros H. apply fresh_on_lattice in H. unfold lava_next_to_water.
  apply wp_run, setCell_keeps_lattice; [|left; discriminate].
  apply wp_run, setCell_keeps_lattice; [exact H|left; discriminate].
Qed.

(** STONE never shows up off the lattice, however many ticks run. *)
Lemma stone_stays_on_lattice wd ht w n x y :
  stone_on_lattice wd ht (sim w) ->
  0 <= x < wd -> 0 <= y < ht -> Z.rem (x + y) 3 <> 0 ->
  Cell.id (getCell x y (sim (run (ticks n) w))) <> STONE.
Proof.
  intros H Hx Hy Hr E.
  destruct (ticks_keep wd ht n w H) as (W & Ht & L).
  apply Hr, L; [|exact E]. apply out_of_range_spec. lia.
Qed.

(** C6, as the code has it. From a grid that holds only LAVA at (5,5) and
    WATER at (6,5), whatever the random source, no number of ticks leaves
    STONE at (5,5): the tick evaluates the interaction step only at cells
    whose coordinates add up to a multiple of 3, and STONE only ever
    appears at such cells. *)
Theorem no_stone_at_5_5 (allocates : Z -> bool) (wd ht : Z)
    (source : nat -> Q) (calls : nat) (w0 : World) (n : nat) :
  new_Simulation allocates wd ht source calls = Some w0 ->
  6 < wd -> 5 < ht ->
  Cell.id (getCell 5 5 (sim (run (ticks n) (lava_next_to_water w0))))
  <> STONE.
Proof.
  intros H Hw Hh.
  apply (stone_stays_on_lattice wd ht); try lia.
  - eapply start_on_lattice, H.
  - discriminate.
Qed.

Lemma no_stone_at_5_5_witness :
  Cell.id (getCell 5 5 (sim (run (ticks 4) (lava_next_to_water (fresh 12 12)))))
  <> STONE.
Proof.
  assert (H : new_Simulation host 12 12 zero_source 0 = Some (fresh 12 12))
    by (vm_compute; reflexivity).
  exact (no_stone_at_5_5 host 12 12 zero_source 0 (fresh 12 12) 4 H
           ltac:(lia) ltac:(lia)).
Defined.

(** C6 fails as stated: on a 12 x 12 grid with every draw 0 (each
    probability check passes), no tick is followed by STONE at (5,5) and
    STEAM at (6,5). *)
Lemma lava_water_reaction_never_at_5_5 :
  ~ (exists n,
       let s := sim (run (ticks n) (lava_next_to_water (fresh 12 12))) in
       Cell.id (getCell 5 5 s) = STONE /\ Cell.id (getCell 6 5 s) = STEAM).
Proof.
  intros [n [E _]]. revert E.
  apply (stone_stays_on_lattice 12 12); try lia; [|discriminate].
  apply (start_on_lattice host 12 12 zero_source 0).
  vm_compute. reflexivity.
Qed.

(** What the first two ticks do on that grid: both liquids fall before
    the interaction step runs. *)
Example lava_and_water_fall :
  let start := lava_next_to_water (fresh 12 12) in
  let ids w := (Cell.id (getCell 5 5 (sim w)), Cell.id (getCell 6 5 (sim w)),
                Cell.id (getCell 5 6 (sim w)), Cell.id (getCell 6 6 (sim w))) in
  ids start = (LAVA, WATER, AIR, AIR)
  /\ ids (run (ticks 1) start) = (AIR, AIR, LAVA, WATER).
Proof. vm_compute. split; reflexivity. Qed.

(** An evaluation of the interaction step at the LAVA cell itself, every
    draw 0: the WATER is the neighbour of key ["right"], which contains
    neither ["Left"] nor ["Right"], so that the STEAM is written over the
    cell that had just been set to STONE. *)
Example reaction_with_side_neighbour :
  let start := lava_next_to_water (fresh 12 12) in
  let after := run (InteractionsEngine.update 5 5) start in
  InteractionsEngine.key_x "right" 5 = 5
  /\ Cell.id (getCell 5 5 (sim after)) = STEAM
  /\ Cell.id (getCell 6 5 (sim after)) = WATER.
Proof. vm_compute. repeat split. Qed.

(** * Further properties of the code *)

(** ** Reading back what was written *)

Lemma getCell_in_range s x y :
  out_of_range s x y = false -> getCell x y s = grid s !!! index s x y.
Proof. intros H. unfold getCell. now rewrite H. Qed.

(** X1. In a simulation whose cell array has [width * height] slots, an
    in-range [setCell(x, y, id, props)] followed by [getCell(x, y)] reads
    the new cell (the id, the material's lifetime or 0, the material's
    temperature, the overrides winning), and every other coordinate
    reads what it read before. *)
Theorem set_then_get (x y materialId : Z) (props : Props) (w : World) :
  wf (sim w) ->
  0 <= x < width (sim w) -> 0 <= y < height (sim w) ->
  let s' := sim (run (setCell x y materialId props) w) in
  getCell x y s' = fresh_cell materialId props
  /\ forall a b, (a, b) <> (x, y) -> getCell a b s' = getCell a b (sim w).
Proof.
  intros Hwf Hx Hy s'.
  assert (O : out_of_range (sim w) x y = false)
    by (apply out_of_range_spec; lia).
  destruct (setCell_in x y materialId props w O) as [color E].
  subst s'. rewrite E. clear E.
  pose proof (index_lt _ _ _ Hwf O) as Hlt.
  split.
  - unfold getCell, placed.
    change (out_of_range (mkSimulation _ _ _ _ _ _ _) x y)
      with (out_of_range (sim w) x y).
    rewrite O. cbn [grid].
    change (index (mkSimulation _ _ _ _ _ _ _) x y) with (index (sim w) x y).
    now rewrite list_lookup_total_insert_eq.
  - intros a b Hab. unfold getCell, placed.
    change (out_of_range (mkSimulation _ _ _ _ _ _ _) a b)
      with (out_of_range (sim w) a b).
    destruct (out_of_range (sim w) a b) eqn:Oa; [reflexivity|].
    cbn [grid].
    change (index (mkSimulation _ _ _ _ _ _ _) a b) with (index (sim w) a b).
    rewrite list_lookup_total_insert_ne; [reflexivity|].
    intros Ei. destruct (index_inj _ _ _ _ _ O Oa Ei). congruence.
Qed.

Lemma set_then_get_witness :
  let w := fresh 3 3 in
  getCell 1 2 (sim (run (setCell 1 2 STEAM no_props) w))
  = fresh_cell STEAM no_props.
Proof.
  intros w.
  assert (Hwf : wf (sim w)) by (vm_compute; reflexivity).
  assert (D : width (sim w) = 3 /\ height (sim w) = 3)
    by (vm_compute; split; reflexivity).
  exact (proj1 (set_then_get 1 2 STEAM no_props w Hwf
                  ltac:(lia) ltac:(lia))).
Defined.

(** X2. In such a simulation an in-range [swap] makes each of the two
    coordinates read the cell the other one held, leaves every other
    coordinate, the size and the particle count as they were. *)
Theorem swap_exchanges (x1 y1 x2 y2 : Z) (s : Simulation) :
  wf s ->
  0 <= x1 < width s -> 0 <= y1 < height s ->
  0 <= x2 < width s -> 0 <= y2 < height s ->
  let s' := swap x1 y1 x2 y2 s in
  getCell x1 y1 s' = getCell x2 y2 s
  /\ getCell x2 y2 s' = getCell x1 y1 s
  /\ (forall a b, (a, b) <> (x1, y1) -> (a, b) <> (x2, y2) ->
        getCell a b s' = getCell a b s)
  /\ width s' = width s /\ height s' = height s
  /\ particleCount s' = particleCount s.
Proof.
  intros Hwf Hx1 Hy1 Hx2 Hy2 s'.
  assert (O1 : out_of_range s x1 y1 = false)
    by (apply out_of_range_spec; lia).
  assert (O2 : out_of_range s x2 y2 = false)
    by (apply out_of_range_spec; lia).
  pose proof (index_lt _ _ _ Hwf O1) as L1.
  pose proof (index_lt _ _ _ Hwf O2) as L2.
  assert (G : forall a b, out_of_range s a b = false ->
            getCell a b s'
            = <[index s x2 y2 := grid s !!! index s x1 y1]>
                (<[index s x1 y1 := grid s !!! index s x2 y2]> (grid s))
              !!! index s a b).
  { intros a b Oa. subst s'. unfold swap. rewrite O1, O2.
    unfold getCell.
    change (out_of_range (with_dynamicCells _ _) a b)
      with (out_of_range s a b).
    now rewrite Oa. }
  repeat split.
  - rewrite (G _ _ O1), (getCell_in_range _ _ _ O2).
    rewrite list_lookup_total_insert, length_insert.
    destruct (decide _) as [[E _]|_]; [now rewrite E|].
    now rewrite list_lookup_total_insert_eq.
  - rewrite (G _ _ O2), (getCell_in_range _ _ _ O1).
    rewrite list_lookup_total_insert_eq; [reflexivity|].
    now rewrite length_insert.
  - intros a b N1 N2.
    destruct (out_of_range s a b) eqn:Oa.
    + subst s'. unfold swap. rewrite O1, O2. unfold getCell.
      change (out_of_range (with_dynamicCells _ _) a b)
        with (out_of_range s a b).
      now rewrite Oa.
    + rewrite (G _ _ Oa), (getCell_in_range _ _ _ Oa).
      rewrite !list_lookup_total_insert_ne; [reflexivity| |].
      * intros E. destruct (index_inj _ _ _ _ _ O1 Oa E). congruence.
      * intros E. destruct (index_inj _ _ _ _ _ O2 Oa E). congruence.
  - subst s'. unfold swap. now rewrite O1, O2.
  - subst s'. unfold swap. now rewrite O1, O2.
  - subst s'. unfold swap. now rewrite O1, O2.
Qed.

Lemma swap_exchanges_witness :
  let s := sim (run (setCell 0 0 SAND no_props) (fresh 2 2)) in
  getCell 0 0 (swap 0 0 1 1 s) = getCell 1 1 s.
Proof.
  intros s.
  assert (Hwf : wf s) by (vm_compute; reflexivity).
  assert (D : width s = 2 /\ height s = 2)
    by (vm_compute; split; reflexivity).
  exact (proj1 (swap_exchanges 0 0 1 1 s Hwf
                  ltac:(lia) ltac:(lia) ltac:(lia) ltac:(lia))).
Defined.

(** ** Two swaps in a row *)

Lemma exchange_lookup {A} `{Inhabited A} (g : list A) (i1 i2 j : nat) :
  (i1 < length g)%nat -> (i2 < length g)%nat ->
  <[i2 := g !!! i1]> (<[i1 := g !!! i2]> g) !! j
  = g !! (if decide (j = i2) then i1 else if decide (j = i1) then i2 else j).
Proof.
  intros L1 L2. rewrite !list_lookup_insert, length_insert.
  repeat case_decide; try lia; subst; try reflexivity;
    symmetry; apply list_lookup_lookup_total, lookup_lt_is_Some; lia.
Qed.

Lemma exchange_twice {A} `{Inhabited A} (g : list A) (i1 i2 : nat) :
  (i1 < length g)%nat -> (i2 < length g)%nat ->
  let g' := <[i2 := g !!! i1]> (<[i1 := g !!! i2]> g) in
  <[i2 := g' !!! i1]> (<[i1 := g' !!! i2]> g') = g.
Proof.
  intros L1 L2 g'. apply list_eq. intros j.
  assert (Lg : length g' = length g) by (unfold g'; now rewrite !length_insert).
  rewrite exchange_lookup by lia. unfold g'.
  rewrite exchange_lookup by lia.
  f_equal. repeat case_decide; lia.
Qed.

(** The colour bytes after the six stores of [swap], read through the
    bytes before them. *)
Lemma exchanged_bytes_lookup (c : list Z) (i1 i2 j : nat) :
  (4 * i1 + 3 < length c)%nat -> (4 * i2 + 3 < length c)%nat ->
  exchanged_bytes c i1 i2 !! j
  = c !! (if decide (4 * i2 <= j < 4 * i2 + 3)%nat then (j + 4 * i1 - 4 * i2)%nat
          else if decide (4 * i1 <= j < 4 * i1 + 3)%nat
               then (j + 4 * i2 - 4 * i1)%nat
               else j).
Proof.
  intros L1 L2. unfold exchanged_bytes. cbv zeta. unfold byte_at.
  rewrite !list_lookup_insert, !length_insert.
  assert (R : forall k, (k < length c)%nat -> Some (default 0 (c !! k)) = c !! k).
  { intros k Hk. destruct (c !! k) eqn:E; [reflexivity|].
    apply lookup_ge_None in E. lia. }
  repeat case_decide; try lia;
    try reflexivity;
    match goal with
    | |- Some (default 0 (c !! ?k)) = c !! ?k' =>
        replace k' with k by lia; apply R; lia
    end.
Qed.

Lemma exchanged_bytes_length c i1 i2 :
  length (exchanged_bytes c i1 i2) = length c.
Proof. unfold exchanged_bytes. cbv zeta. now rewrite !length_insert. Qed.

Lemma exchanged_bytes_twice (c : list Z) (i1 i2 : nat) :
  (4 * i1 + 3 < length c)%nat -> (4 * i2 + 3 < length c)%nat ->
  exchanged_bytes (exchanged_bytes c i1 i2) i1 i2 = c.
Proof.
  intros L1 L2. apply list_eq. intros j.
  rewrite exchanged_bytes_lookup by (rewrite exchanged_bytes_length; lia).
  rewrite exchanged_bytes_lookup by lia.
  f_equal. repeat case_decide; lia.
Qed.

Lemma swap_in_range x1 y1 x2 y2 s :
  out_of_range s x1 y1 = false -> out_of_range s x2 y2 = false ->
  let i1 := index s x1 y1 in
  let i2 := index s x2 y2 in
  grid (swap x1 y1 x2 y2 s)
  = <[i2 := grid s !!! i1]> (<[i1 := grid s !!! i2]> (grid s))
  /\ colorCache (swap x1 y1 x2 y2 s) = exchanged_bytes (colorCache s) i1 i2
  /\ width (swap x1 y1 x2 y2 s) = width s
  /\ height (swap x1 y1 x2 y2 s) = height s
  /\ frameCount (swap x1 y1 x2 y2 s) = frameCount s
  /\ particleCount (swap x1 y1 x2 y2 s) = particleCount s.
Proof.
  intros O1 O2. unfold swap. rewrite O1, O2. repeat split.
Qed.

(** X3. In a simulation whose arrays have their full length, two
    successive calls of [swap] with the same arguments restore every cell
    and every byte of the colour cache, and leave the size, the frame
    counter and the particle count alone, whatever the coordinates. *)
Theorem swap_twice_restores_cells (x1 y1 x2 y2 : Z) (s : Simulation) :
  wf s -> cache_wf s ->
  let s2 := swap x1 y1 x2 y2 (swap x1 y1 x2 y2 s) in
  grid s2 = grid s /\ colorCache s2 = colorCache s
  /\ width s2 = width s /\ height s2 = height s
  /\ frameCount s2 = frameCount s /\ particleCount s2 = particleCount s.
Proof.
  intros Hwf Hc s2.
  destruct (out_of_range s x1 y1) eqn:O1.
  { subst s2. unfold swap. rewrite O1. rewrite O1. repeat split. }
  destruct (out_of_range s x2 y2) eqn:O2.
  { subst s2. unfold swap. rewrite O1, O2. rewrite O1, O2. repeat split. }
  pose proof (index_lt _ _ _ Hwf O1) as L1.
  pose proof (index_lt _ _ _ Hwf O2) as L2.
  destruct (swap_in_range x1 y1 x2 y2 s O1 O2)
    as (G1 & C1 & W1 & H1 & F1 & P1).
  set (s1 := swap x1 y1 x2 y2 s) in *.
  assert (O1' : out_of_range s1 x1 y1 = false)
    by (unfold out_of_range in *; now rewrite W1, H1).
  assert (O2' : out_of_range s1 x2 y2 = false)
    by (unfold out_of_range in *; now rewrite W1, H1).
  destruct (swap_in_range x1 y1 x2 y2 s1 O1' O2')
    as (G2 & C2 & W2 & H2 & F2 & P2).
  fold s2 in G2, C2, W2, H2, F2, P2.
  assert (I1 : index s1 x1 y1 = index s x1 y1)
    by (unfold index; now rewrite W1).
  assert (I2 : index s1 x2 y2 = index s x2 y2)
    by (unfold index; now rewrite W1).
  rewrite I1, I2 in G2, C2.
  repeat split; try congruence.
  - rewrite G2, G1. now apply exchange_twice.
  - rewrite C2, C1. unfold cache_wf in Hc.
    apply exchanged_bytes_twice; lia.
Qed.

Lemma swap_twice_restores_cells_witness :
  let s := sim (run (setCell 0 1 WATER no_props)
                  (run (setCell 0 0 SAND no_props) (fresh 1 2))) in
  grid (swap 0 0 0 1 (swap 0 0 0 1 s)) = grid s.
Proof.
  intros s.
  assert (Hwf : wf s) by (vm_compute; reflexivity).
  assert (Hc : cache_wf s) by (vm_compute; reflexivity).
  exact (proj1 (swap_twice_restores_cells 0 0 0 1 s Hwf Hc)).
Defined.

(** ** The dynamic-cell index without [swap] *)

Lemma elem_of_set_add (i j : nat) (d : list nat) :
  i ∈ set_add j d <-> i = j \/ i ∈ d.
Proof.
  unfold set_add, set_has. case_bool_decide as Hj.
  - split; [auto|]. intros [->|]; assumption.
  - rewrite elem_of_app, list_elem_of_singleton. tauto.
Qed.

Lemma elem_of_set_delete (i j : nat) (d : list nat) :
  i ∈ set_delete j d <-> i <> j /\ i ∈ d.
Proof. unfold set_delete. now rewrite list_elem_of_filter. Qed.

Lemma exact_placed x y m p color s :
  wf s -> exact_index s -> out_of_range s x y = false ->
  exact_index (placed x y m p color s).
Proof.
  intros Hwf He O i. pose proof (index_lt _ _ _ Hwf O) as Hlt.
  unfold placed. cbn [dynamicCells grid]. rewrite length_insert.
  specialize (He i).
  destruct (decide (i = index s x y)) as [->|Hne].
  - rewrite list_lookup_total_insert_eq by exact Hlt.
    unfold procedural at 1. cbn [Cell.id].
    destruct (is_function _) eqn:F.
    + rewrite elem_of_set_add. tauto.
    + rewrite elem_of_set_delete. split; [tauto|]. intros [_ ?]. discriminate.
  - rewrite list_lookup_total_insert_ne by auto.
    destruct (is_function _).
    + rewrite elem_of_set_add. tauto.
    + rewrite elem_of_set_delete. tauto.
Qed.

Lemma exact_all_air n wd ht cache f :
  exact_index (mkSimulation wd ht (replicate n air_cell) cache [] f 0).
Proof.
  intros i. cbn [dynamicCells grid]. split.
  - intros Hi. now apply elem_of_nil in Hi.
  - intros [Hi Hp]. rewrite length_replicate in Hi.
    rewrite lookup_total_replicate_2 in Hp by exact Hi. discriminate.
Qed.

(** X4. In every state reached from construction by [setCell] and [reset]
    calls alone, whatever their arguments, the dynamic-cell index holds
    exactly the slots whose material has a function-valued colour. *)
Theorem index_exact_without_swap
    (allocates : Z -> bool) (wd ht : Z) (source : nat -> Q) (calls : nat)
    (w0 : World) (cs : list Call) :
  new_Simulation allocates wd ht source calls = Some w0 ->
  forallb writes_cells_only cs = true ->
  exact_index (sim (run (for_each cs call) w0)).
Proof.
  intros Hnew Hcs.
  assert (H0 : wf (sim w0) /\ exact_index (sim w0)).
  { split; [eapply counted_new, Hnew|].
    apply new_Simulation_sim in Hnew as [cache ->]. apply exact_all_air. }
  clear Hnew. revert w0 H0.
  induction cs as [|c cs IH]; intros w0 [Hwf He]; [exact He|].
  cbn [forallb] in Hcs. apply andb_prop in Hcs as [Hc Hcs].
  unfold run. simpl. unfold bind.
  assert (H1 : wf (sim (run (call c) w0))
               /\ exact_index (sim (run (call c) w0))).
  { destruct c as [x y m p|x1 y1 x2 y2|]; [|discriminate|]; simpl.
    - destruct (out_of_range (sim w0) x y) eqn:O.
      + unfold run. rewrite setCell_out by exact O. now split.
      + destruct (setCell_in x y m p w0 O) as [color ->].
        split; [now apply wf_placed | now apply exact_placed].
    - destruct (reset_spec w0) as [cache ->]. split.
      + unfold wf in *. simpl. now rewrite length_replicate.
      + apply exact_all_air. }
  unfold run in H1. destruct (call c w0) as [[] w1].
  now apply IH.
Qed.

Lemma index_exact_without_swap_witness :
  let cs := [CallSetCell 0 0 SAND no_props; CallSetCell 1 1 FIRE no_props;
             CallReset; CallSetCell 0 0 AIR no_props] in
  exact_index (sim (run (for_each cs call) (fresh 2 2))).
Proof.
  intros cs.
  assert (H : new_Simulation host 2 2 zero_source 0 = Some (fresh 2 2))
    by (vm_compute; reflexivity).
  assert (Hcs : forallb writes_cells_only cs = true) by reflexivity.
  exact (index_exact_without_swap host 2 2 zero_source 0 (fresh 2 2) cs
           H Hcs).
Defined.

(** ** The material registry *)

(** X5. [getMaterial] never fails: for the 21 ids of the registry it
    returns the definition carrying that id, and for every other id the
    definition of AIR, whose colour is fixed, so that [getColor] of an
    unknown id is AIR's colour and draws nothing. *)
Theorem getMaterial_total (id : Z) :
  let known := [0; 1; 2; 3; 4; 5; 6; 10; 11; 12; 13; 20; 21; 22; 30; 31; 32;
                33; 40; 41; 42] in
  Mat.id (getMaterial id) = (if bool_decide (id ∈ known) then id else AIR)
  /\ (id ∉ known ->
      getMaterial id = getMaterial AIR
      /\ forall w, getColor id w = ((10, 10, 20)%Q, w)).
Proof.
  intros known.
  assert (K : Mat.id (getMaterial id) ∈ known).
  { pattern (getMaterial id). apply table_ind.
    repeat constructor. }
  assert (U : id ∉ known -> getMaterial id = getMaterial AIR).
  { intros N. destruct (getMaterial_id id) as [E|E]; [|exact E].
    rewrite E in K. contradiction. }
  split.
  - case_bool_decide as Hk.
    + destruct (getMaterial_id id) as [E|E]; [exact E|].
      unfold known in Hk. rewrite !elem_of_cons, elem_of_nil in Hk.
      repeat (destruct Hk as [->|Hk]; [reflexivity|]). contradiction.
    + now rewrite (U Hk).
  - intros N. split; [now apply U|]. intros w.
    unfold getColor. now rewrite (U N).
Qed.

(** X6. [hasGravity] answers [false] for STONE and [true] for every
    other id, the unknown ones and AIR included. *)
Theorem hasGravity_spec (id : Z) : hasGravity id = negb (id =? STONE).
Proof.
  unfold hasGravity. cbv zeta.
  destruct (Z.eqb_spec id STONE) as [->|N]; [reflexivity|].
  destruct (Mat.immovable (getMaterial id)) eqn:E.
  - apply immovable_stone in E. contradiction.
  - apply orb_true_r.
Qed.

(** ** Invariants of the steps *)

(** The development below carries a property [I] of the simulation
    through every function of the physics and interaction steps.  [P]
    holds of the coordinates a function may pass to [swap], [S] of those
    whose cell it may overwrite or age; [I] is kept by each primitive
    applied at such coordinates. *)

Lemma in_unit (a : Z) : a ∈ [-1; 0; 1] -> -1 <= a <= 1.
Proof. rewrite !elem_of_cons, elem_of_nil. lia. Qed.

Lemma movable_in_range x y s :
  Mat.immovable (getMaterial (Cell.id (getCell x y s))) = false ->
  out_of_range s x y = false.
Proof.
  unfold getCell. destruct (out_of_range s x y); [discriminate|reflexivity].
Qed.

Section Keeps.

Variables wd ht : Z.
Variable I : Simulation -> Prop.
Variables P S : Z -> Z -> Prop.

Hypothesis I_size : forall s, I s -> width s = wd /\ height s = ht.
Hypothesis I_colors :
  forall idx color s, I s ->
    I (with_colorCache (store_rgb idx color (colorCache s)) s).
Hypothesis I_swap :
  forall x1 y1 x2 y2 s, I s -> P x1 y1 -> P x2 y2 ->
    I (swap x1 y1 x2 y2 s).
Hypothesis I_placed :
  forall x y m p c s, I s -> out_of_range s x y = false -> S x y ->
    I (placed x y m p c s).
Hypothesis I_aged :
  forall x y v s, I s -> out_of_range s x y = false -> S x y ->
    I (aged x y v s).

Abbreviation kept := (fun (_ : bool) w' => I (sim w')).
Abbreviation done := (fun (_ : unit) w' => I (sim w')).

Ltac split_ifs :=
  repeat match goal with
         | |- context [if ?c then _ else _] => destruct c
         end.

Ltac members :=
  repeat match goal with
         | H : _ ∈ _ :: _ |- _ =>
             apply elem_of_cons in H; destruct H as [H|H];
             [try (inversion H; clear H); subst|]
         | H : _ ∈ [] |- _ => apply elem_of_nil in H; destruct H
         end.

Ltac in_P :=
  lazymatch goal with
  | H : forall a b, P a b |- P _ _ => apply H
  | H : forall a b, S a b |- S _ _ => apply H
  | H : forall a b, _ -> _ -> P a b |- P _ _ =>
      apply H; split_ifs; members; lia
  | H : forall a b, _ -> _ -> S a b |- S _ _ =>
      apply H;
      unfold InteractionsEngine.key_x, InteractionsEngine.key_y;
      split_ifs; members; lia
  end.

Ltac in_range :=
  apply out_of_range_spec;
  match goal with
  | H : I ?s |- context [width ?s] => destruct (I_size _ H) as [-> ->]
  end; lia.

Ltac keep_goal :=
  cbn [sim] in *;
  lazymatch goal with
  | |- I (aged _ _ _ _) => apply I_aged; [keep_goal | in_range | in_P]
  | |- I (swap _ _ _ _ _) => apply I_swap; [keep_goal | in_P | in_P]
  | |- _ => assumption
  end.

Lemma setCell_keeps x y m p w :
  I (sim w) -> S x y -> wp (setCell x y m p) done w.
Proof.
  intros H HP. unfold wp.
  destruct (out_of_range (sim w) x y) eqn:O.
  - now rewrite setCell_out.
  - destruct (setCell_in x y m p w O) as [color E]. unfold run in E.
    rewrite E. now apply I_placed.
Qed.

Ltac step :=
  lazymatch goal with
  | |- wp (PhysicsEngine.set_life _ _ _) _ _ =>
      apply wp_set_life; cbv beta; cbn [sim random_source random_calls]
  | |- wp (setCell _ _ _ _) _ _ =>
      apply (wp_mono _ done);
      [ apply setCell_keeps; [keep_goal | in_P] | intros [] ? ?; cbv beta ]
  | |- wp (for_return _ _) _ _ =>
      apply (wp_mono _ kept);
      [ apply (wp_for_return (fun w' => I (sim w')));
        [ intros ? ? ? ? | keep_goal ]
      | intros ? ? ?; cbv beta ]
  | |- wp (for_each _ _) _ _ =>
      apply (wp_mono _ done);
      [ apply (wp_for_each (fun w' => I (sim w')));
        [ intros ? ? ? ? | keep_goal ]
      | intros ? ? ?; cbv beta ]
  | |- wp (InteractionsEngine.or_else _ _) _ _ =>
      unfold InteractionsEngine.or_else
  | |- wp (InteractionsEngine.burn _ _ _ _) _ _ =>
      unfold InteractionsEngine.burn
  | |- _ => wp_step
  end.

Ltac steps := repeat step.

Section Physics.

Import PhysicsEngine.

Variables x y : Z.
Hypothesis in_x : 0 <= x < wd.
Hypothesis in_y : 0 <= y < ht.
Hypothesis reach :
  forall a b, x - 2 <= a <= x + 2 -> y - 2 <= b <= y + 2 -> P a b.
Hypothesis here : forall a b, a = x -> b = y -> S a b.

Lemma tryPowderSlide_inv dir cell mat w :
  I (sim w) -> -1 <= dir <= 1 ->
  wp (tryPowderSlide x y dir cell mat)
     (fun r w' => I (sim w') /\ (r = false -> w' = w)) w.
Proof.
  intros HI Hd. unfold tryPowderSlide. wp_steps.
  - split; [keep_goal | discriminate].
  - split; [keep_goal | reflexivity].
Qed.

Lemma updatePowder_inv cell mat w :
  I (sim w) -> wp (updatePowder x y cell mat) kept w.
Proof.
  intros HI. unfold updatePowder. wp_steps; try keep_goal.
  eapply wp_mono;
    [apply tryPowderSlide_inv; [keep_goal | split_ifs; lia]|].
  intros first w1 [H1 E1]. wp_steps; [exact H1|].
  specialize (E1 eq_refl). subst w1.
  eapply wp_mono;
    [apply tryPowderSlide_inv; [keep_goal | split_ifs; lia]|].
  intros second w2 [H2 _]. wp_steps; exact H2.
Qed.

Lemma spreadLiquid_inv dir cell w :
  I (sim w) -> -1 <= dir <= 1 -> wp (spreadLiquid x y dir cell) kept w.
Proof.
  intros HI Hd. unfold spreadLiquid. wp_steps; keep_goal.
Qed.

Lemma updateLiquid_inv cell mat w :
  I (sim w) -> wp (updateLiquid x y cell mat) kept w.
Proof.
  intros HI. unfold updateLiquid. wp_steps; try keep_goal.
  all: apply spreadLiquid_inv; first [keep_goal | split_ifs; lia].
Qed.

Lemma updateSolid_inv cell mat w :
  I (sim w) -> wp (updateSolid x y cell mat) kept w.
Proof.
  intros HI. unfold updateSolid. wp_steps; keep_goal.
Qed.

Lemma explosionForce_inv w :
  I (sim w) -> wp (explosionForce x y) done w.
Proof.
  unfold explosionForce.
  apply (wp_for_each (fun w' => I (sim w'))).
  intros dy w1 Hdy H1. apply in_unit in Hdy.
  apply (wp_for_each (fun w' => I (sim w'))); [|exact H1].
  intros dx w2 Hdx H2. apply in_unit in Hdx. wp_steps; keep_goal.
Qed.

Lemma updateGas_inv cell mat w :
  I (sim w) -> wp (updateGas x y cell mat) kept w.
Proof.
  intros HI. unfold updateGas. steps; keep_goal.
Qed.

Lemma updateEnergy_inv cell mat w :
  I (sim w) -> wp (updateEnergy x y cell mat) kept w.
Proof.
  intros HI. unfold updateEnergy. steps; try keep_goal.
  all: apply (wp_mono _ done);
    [ apply explosionForce_inv; keep_goal
    | intros [] w' H'; wp_steps; exact H' ].
Qed.

End Physics.

Section PhysicsUpdate.

Import PhysicsEngine.

Variables x y : Z.
Hypothesis reach :
  forall a b, x - 2 <= a <= x + 2 -> y - 2 <= b <= y + 2 -> P a b.
Hypothesis here : forall a b, a = x -> b = y -> S a b.

(** A cell that is neither gas nor energy is only ever swapped. *)
Lemma update_moving_inv w :
  I (sim w) ->
  Mat.state (getMaterial (Cell.id (getCell x y (sim w)))) <> STATE.GAS ->
  Mat.state (getMaterial (Cell.id (getCell x y (sim w)))) <> STATE.ENERGY ->
  wp (update x y) kept w.
Proof.
  intros HI NG NE. unfold update. wp_steps; try keep_goal.
  match goal with
  | H : Mat.immovable _ = false |- _ =>
      apply movable_in_range, out_of_range_spec in H;
      destruct (I_size _ HI) as [Ew Eh]; rewrite Ew, Eh in H;
      destruct H as [Hx Hy]
  end.
  destruct (Mat.state _); try contradiction.
  - now apply updateSolid_inv.
  - now apply updatePowder_inv.
  - now apply updateLiquid_inv.
Qed.

Lemma update_inv w : I (sim w) -> wp (update x y) kept w.
Proof.
  intros HI. unfold update. wp_steps; try keep_goal.
  match goal with
  | H : Mat.immovable _ = false |- _ =>
      apply movable_in_range, out_of_range_spec in H;
      destruct (I_size _ HI) as [Ew Eh]; rewrite Ew, Eh in H;
      destruct H as [Hx Hy]
  end.
  destruct (Mat.state _).
  - now apply updateSolid_inv.
  - now apply updatePowder_inv.
  - now apply updateLiquid_inv.
  - now apply updateGas_inv.
  - now apply updateEnergy_inv.
Qed.

End PhysicsUpdate.

Section Interactions.

Import InteractionsEngine.

Variables x y : Z.
Hypothesis near :
  forall a b, x - 1 <= a <= x + 1 -> y - 1 <= b <= y + 1 -> S a b.

Lemma checkMelting_inv cell mat neighbors w :
  I (sim w) -> wp (checkMelting x y cell mat neighbors) kept w.
Proof. intros HI. unfold checkMelting. steps; keep_goal. Qed.

Lemma checkBurning_inv cell mat neighbors w :
  I (sim w) -> wp (checkBurning x y cell mat neighbors) kept w.
Proof. intros HI. unfold checkBurning. steps; keep_goal. Qed.

Lemma checkMixing_inv cell mat neighbors w :
  I (sim w) -> wp (checkMixing x y cell mat neighbors) kept w.
Proof. intros HI. unfold checkMixing. steps; keep_goal. Qed.

Lemma checkGrowing_inv cell mat neighbors w :
  I (sim w) -> wp (checkGrowing x y cell mat neighbors) kept w.
Proof.
  intros HI. unfold checkGrowing. steps; keep_goal.
Qed.

Lemma checkConduction_inv cell mat neighbors w :
  I (sim w) -> wp (checkConduction x y cell mat neighbors) kept w.
Proof. intros HI. unfold checkConduction. steps; keep_goal. Qed.

Lemma checkErosion_inv cell mat neighbors w :
  I (sim w) -> wp (checkErosion x y cell mat neighbors) kept w.
Proof. intros HI. unfold checkErosion. steps; keep_goal. Qed.

Lemma interactions_update_inv w : I (sim w) -> wp (update x y) kept w.
Proof.
  intros HI. unfold update. wp_steps; [exact HI|].
  apply (wp_mono _ kept); [now apply checkMelting_inv|].
  intros c1 w1 H1. wp_steps.
  apply (wp_mono _ kept); [now apply checkBurning_inv|].
  intros c2 w2 H2. wp_steps.
  apply (wp_mono _ kept); [now apply checkMixing_inv|].
  intros c3 w3 H3. wp_steps.
  apply (wp_mono _ kept); [now apply checkGrowing_inv|].
  intros c4 w4 H4. wp_steps.
  apply (wp_mono _ kept); [now apply checkConduction_inv|].
  intros c5 w5 H5. wp_steps.
  apply (wp_mono _ kept); [now apply checkErosion_inv|].
  intros c6 w6 H6. wp_steps. exact H6.
Qed.

End Interactions.

Lemma updateDynamicColors_inv w :
  I (sim w) -> wp updateDynamicColors done w.
Proof.
  intros HI. unfold updateDynamicColors. wp_steps.
  apply (wp_for_each (fun w' => I (sim w'))); [|exact HI].
  intros idx w1 _ H1. wp_steps.
  pose proof (sample_color_sim (Cell.id (grid (sim w1) !!! idx)) w1) as E.
  unfold sample_color in E.
  destruct (Mat.color _) as [rgb|sample]; [wp_steps; exact H1|].
  wp_steps. apply (wp_mono _ (fun _ w' => sim w' = sim w1)); [exact E|].
  intros color w2 E2. wp_steps. cbn [sim]. rewrite E2.
  now apply I_colors.
Qed.

(** One tick, given what each of the two steps keeps. *)
Lemma tick_inv_from w :
  (forall x y w', I (sim w') -> wp (PhysicsEngine.update x y) kept w') ->
  (Z.rem (frameCount (sim w) + 1) 2 = 0 ->
   forall x y w', I (sim w') -> wp (InteractionsEngine.update x y) kept w') ->
  I (with_frameCount (frameCount (sim w) + 1) (sim w)) ->
  wp tick done w.
Proof.
  intros physics interactions H0. unfold tick. wp_steps.
  destruct (Z.rem _ 2 =? 0) eqn:even.
  all: apply (wp_mono _ done);
    [ apply (wp_for_each (fun w' => I (sim w')));
      [|exact H0];
      intros y w1 _ H1;
      apply (wp_for_each (fun w' => I (sim w')));
      [|exact H1];
      intros x w2 _ H2; wp_steps;
      apply (wp_mono _ kept);
      [ now apply physics
      | intros moved w3 H3; wp_steps; exact H3 ]
    | intros [] w1 H1; wp_steps ].
  2: now apply updateDynamicColors_inv.
  apply Z.eqb_eq in even.
  apply (wp_mono _ done).
  - apply (wp_for_each (fun w' => I (sim w'))); [|exact H1].
    intros y w2 _ H2.
    apply (wp_for_each (fun w' => I (sim w'))); [|exact H2].
    intros x w3 _ H3. unfold when.
    destruct (Z.rem (x + y) 3 =? 0); [|exact H3].
    wp_steps. apply (wp_mono _ kept); [now apply interactions|].
    intros changed w4 H4. wp_steps. exact H4.
  - intros [] w2 H2. wp_steps. now apply updateDynamicColors_inv.
Qed.

Section Brush.

Variables centerX centerY materialId radius : Z.
Variable shape : Shape.

Hypothesis under_brush :
  forall dx dy, - radius <= dx <= radius -> - radius <= dy <= radius ->
    S (to_double (centerX + dx)) (to_double (centerY + dy)).

Lemma drawBrush_inv w :
  I (sim w) -> wp (drawBrush centerX centerY materialId radius shape) done w.
Proof.
  intros HI. unfold drawBrush. cbv zeta.
  apply (wp_for_each (fun w' => I (sim w'))); [|exact HI].
  intros dy w1 Hdy H1. apply elem_of_seqZ in Hdy.
  apply (wp_for_each (fun w' => I (sim w'))); [|exact H1].
  intros dx w2 Hdx H2. apply elem_of_seqZ in Hdx.
  wp_steps; try exact H2.
  apply setCell_keeps; [exact H2|].
  apply under_brush; lia.
Qed.

End Brush.

Section Everywhere.

Hypothesis all_P : forall a b, P a b.
Hypothesis all_S : forall a b, S a b.

Lemma tick_inv w :
  I (with_frameCount (frameCount (sim w) + 1) (sim w)) -> wp tick done w.
Proof.
  apply tick_inv_from.
  - intros x y w' H. apply update_inv; auto.
  - intros _ x y w' H. apply interactions_update_inv; auto.
Qed.

Lemma drawLine_loop_inv fuel x1 y1 dx dy sx sy materialId radius x0 y0 err w :
  I (sim w) ->
  wp (drawLine_loop fuel x1 y1 dx dy sx sy materialId radius x0 y0 err)
     kept w.
Proof.
  revert x0 y0 err w.
  induction fuel as [|fuel IH]; intros x0 y0 err w HI; simpl.
  - wp_steps. exact HI.
  - wp_steps. apply (wp_mono _ done); [apply drawBrush_inv; auto|].
    intros [] w1 H1. wp_steps; [exact H1|].
    repeat match goal with
           | |- context [if ?c then _ else _] => destruct c
           end; now apply IH.
Qed.

Lemma drawLine_inv fuel x0 y0 x1 y1 materialId radius w :
  I (sim w) -> wp (drawLine fuel x0 y0 x1 y1 materialId radius) kept w.
Proof. intros HI. unfold drawLine. cbv zeta. now apply drawLine_loop_inv. Qed.

Lemma call_inv c w :
  (forall w', I (sim w') -> I (sim (run reset w'))) ->
  I (sim w) -> wp (call c) done w.
Proof.
  intros I_reset HI. destruct c as [x y m p|x1 y1 x2 y2|]; simpl.
  - now apply setCell_keeps.
  - wp_steps. now apply I_swap.
  - now apply I_reset.
Qed.

End Everywhere.

End Keeps.

(** ** Invariants of every reachable state *)



Lemma swap_size x1 y1 x2 y2 s :
  width (swap x1 y1 x2 y2 s) = width s
  /\ height (swap x1 y1 x2 y2 s) = height s
  /\ frameCount (swap x1 y1 x2 y2 s) = frameCount s
  /\ particleCount (swap x1 y1 x2 y2 s) = particleCount s
  /\ length (grid (swap x1 y1 x2 y2 s)) = length (grid s)
  /\ length (colorCache (swap x1 y1 x2 y2 s)) = length (colorCache s).
Proof.
  unfold swap. destruct (out_of_range s x1 y1); [now repeat split|].
  destruct (out_of_range s x2 y2); [now repeat split|].
  cbn. now rewrite !length_insert.
Qed.

Lemma counted_aged x y v s :
  counted s -> out_of_range s x y = false -> counted (aged x y v s).
Proof.
  intros [Hwf Hc] O. pose proof (index_lt _ _ _ Hwf O) as L.
  unfold counted, wf, aged. cbn [with_grid grid particleCount width height].
  rewrite length_insert. split; [exact Hwf|].
  rewrite count_particles_insert by exact L. unfold non_air.
  cbn [Cell.id]. lia.
Qed.

(** The operations one after the other keep what each of them keeps. *)
Lemma ops_keep (I : Simulation -> Prop) (os : list Op) :
  (forall o w, I (sim w) -> I (sim (run (op o) w))) ->
  forall w, I (sim w) -> I (sim (run (for_each os op) w)).
Proof.
  intros step w HI. apply wp_run.
  apply (wp_for_each (fun w' => I (sim w'))); [|exact HI].
  intros o w' _ H'. now apply step.
Qed.

Section Counted.

Variables wd ht : Z.

Let I (s : Simulation) : Prop := width s = wd /\ height s = ht /\ counted s.
Let everywhere (_ _ : Z) : Prop := True.

Lemma counted_op o w : I (sim w) -> I (sim (run (op o) w)).
Proof.
  assert (I_size : forall s, I s -> width s = wd /\ height s = ht)
    by (intros s (W & H & _); now split).
  assert (I_colors : forall idx color s, I s ->
            I (with_colorCache (store_rgb idx color (colorCache s)) s))
    by (intros idx color s (W & H & C); split; [exact W|split; [exact H|exact C]]).
  assert (I_swap : forall x1 y1 x2 y2 s, I s ->
            everywhere x1 y1 -> everywhere x2 y2 -> I (swap x1 y1 x2 y2 s)).
  { intros x1 y1 x2 y2 s (W & H & C) _ _.
    destruct (swap_size x1 y1 x2 y2 s) as (W' & H' & _).
    repeat split; try congruence. all: now apply counted_swap. }
  assert (I_placed : forall x y m p c s, I s ->
            out_of_range s x y = false -> everywhere x y ->
            I (placed x y m p c s)).
  { intros x y m p c s (W & H & C) O _. repeat split; try assumption.
    all: now apply counted_placed. }
  assert (I_aged : forall x y v s, I s ->
            out_of_range s x y = false -> everywhere x y ->
            I (aged x y v s)).
  { intros x y v s (W & H & C) O _. repeat split; try assumption.
    all: now apply counted_aged. }
  intros HI. apply wp_run. destruct o; simpl.
  - apply (call_inv I everywhere everywhere); try easy.
    intros w' (W & H & C).
    pose proof (counted_reset w' C) as C'.
    destruct (reset_spec w') as [cache E]. rewrite E in *.
    split; [exact W|split; [exact H|exact C']].
  - apply (tick_inv wd ht I everywhere everywhere); easy.
  - apply (drawBrush_inv I everywhere); easy.
  - wp_steps.
    apply (wp_mono _ (fun _ w' => I (sim w')));
      [apply (drawLine_inv I everywhere); easy|].
    intros r w1 H1. wp_steps. exact H1.
Qed.

End Counted.

(** X7. In every state reached from construction by [setCell], [swap],
    [reset], [tick], [drawBrush] and [drawLine], in any order and with
    any arguments, [particleCount] is the number of cells that are not
    AIR and the cell array has [width * height] slots. *)
Theorem particle_count_after_operations
    (allocates : Z -> bool) (wd ht : Z) (source : nat -> Q) (calls : nat)
    (w0 : World) (os : list Op) :
  new_Simulation allocates wd ht source calls = Some w0 ->
  let s := sim (run (for_each os op) w0) in
  particleCount s = count_particles (grid s)
  /\ length (grid s) = Z.to_nat (wd * ht)
  /\ width s = wd /\ height s = ht.
Proof.
  intros H s.
  assert (K : width s = wd /\ height s = ht /\ counted s).
  { subst s. apply (ops_keep (fun s => width s = wd /\ height s = ht
                                       /\ counted s)).
    - intros o w. apply counted_op.
    - pose proof (counted_new _ _ _ _ _ _ H).
      apply new_Simulation_sim in H as [cache E].
      rewrite E in *. split; [reflexivity|split; [reflexivity|assumption]]. }
  destruct K as (W & Hh & Hwf & C). unfold wf in Hwf.
  rewrite W, Hh in Hwf. now repeat split.
Qed.

Lemma particle_count_after_operations_witness :
  let os := [OpBrush 2 2 SAND 1 circle; OpTick; OpLine 5 0 0 3 1 WATER 0;
             OpTick; OpCall (CallSwap 0 0 2 2)] in
  match new_Simulation host 4 4 zero_source 0 with
  | Some w0 =>
      let s := sim (run (for_each os op) w0) in
      particleCount s = count_particles (grid s)
  | None => False
  end.
Proof.
  intros os.
  destruct (new_Simulation host 4 4 zero_source 0) as [w0|] eqn:E;
    [|vm_compute in E; discriminate].
  exact (proj1 (particle_count_after_operations host 4 4 zero_source 0 w0
                  os E)).
Defined.


Section Sized.

Variables wd ht : Z.
Variables n m : nat.

Let I (f : Z) (s : Simulation) : Prop :=
  width s = wd /\ height s = ht /\ length (grid s) = n
  /\ length (colorCache s) = m /\ frameCount s = f.
Let everywhere (_ _ : Z) : Prop := True.




End Sized.


Section Unstamped.

Variables wd ht : Z.

Let I (s : Simulation) : Prop :=
  width s = wd /\ height s = ht /\ wf s /\ unstamped s.
Let everywhere (_ _ : Z) : Prop := True.

Lemma unstamped_insert (g : list Cell.t) (i : nat) (c : Cell.t) :
  Forall (fun c => Cell.updated c = None) g -> Cell.updated c = None ->
  Forall (fun c => Cell.updated c = None) (<[i := c]> g).
Proof. intros Hg Hc. now apply Forall_insert. Qed.

Lemma unstamped_lookup (g : list Cell.t) (i : nat) :
  Forall (fun c => Cell.updated c = None) g -> (i < length g)%nat ->
  Cell.updated (g !!! i) = None.
Proof.
  intros Hg Hi.
  now apply (Forall_lookup_total_1 (fun c => Cell.updated c = None)).
Qed.

Lemma unstamped_op o w : I (sim w) -> I (sim (run (op o) w)).
Proof.
  assert (I_size : forall s, I s -> width s = wd /\ height s = ht)
    by (intros s (W & H & _); now split).
  assert (I_colors : forall idx color s, I s ->
            I (with_colorCache (store_rgb idx color (colorCache s)) s))
    by (intros idx color s (W & H & F & U);
        split; [exact W|split; [exact H|split; [exact F|exact U]]]).
  assert (I_swap : forall x1 y1 x2 y2 s, I s ->
            everywhere x1 y1 -> everywhere x2 y2 -> I (swap x1 y1 x2 y2 s)).
  { intros x1 y1 x2 y2 s (W & H & F & U) _ _.
    destruct (swap_size x1 y1 x2 y2 s) as (W' & H' & _).
    split; [congruence|]. split; [congruence|].
    split; [now apply wf_swap|].
    unfold unstamped.
    destruct (out_of_range s x1 y1) eqn:O1;
      [unfold swap; now rewrite O1|].
    destruct (out_of_range s x2 y2) eqn:O2;
      [unfold swap; now rewrite O1, O2|].
    destruct (swap_in_range x1 y1 x2 y2 s O1 O2) as (-> & _).
    pose proof (index_lt _ _ _ F O1). pose proof (index_lt _ _ _ F O2).
    apply unstamped_insert; [apply unstamped_insert|];
      try apply unstamped_lookup; assumption. }
  assert (I_placed : forall x y m p c s, I s ->
            out_of_range s x y = false -> everywhere x y ->
            I (placed x y m p c s)).
  { intros x y m p c s (W & H & F & U) _ _.
    split; [exact W|]. split; [exact H|]. split; [now apply wf_placed|].
    unfold unstamped, placed. cbn [grid].
    now apply unstamped_insert. }
  assert (I_aged : forall x y v s, I s ->
            out_of_range s x y = false -> everywhere x y ->
            I (aged x y v s)).
  { intros x y v s (W & H & F & U) O _.
    pose proof (index_lt _ _ _ F O).
    split; [exact W|]. split; [exact H|].
    split; [unfold wf, aged; cbn; now rewrite length_insert|].
    unfold unstamped, aged. cbn [grid with_grid].
    apply unstamped_insert; [exact U|]. cbn [Cell.updated].
    now apply unstamped_lookup. }
  intros HI. apply wp_run. destruct o; simpl.
  - apply (call_inv I everywhere everywhere); try easy.
    intros w' (W & H & F & U).
    destruct (reset_spec w') as [cache E]. rewrite E.
    split; [exact W|]. split; [exact H|].
    split; [unfold wf in *; cbn; now rewrite length_replicate|].
    unfold unstamped. cbn [grid]. now apply Forall_replicate.
  - apply (tick_inv wd ht I everywhere everywhere); easy.
  - apply (drawBrush_inv I everywhere); easy.
  - wp_steps.
    apply (wp_mono _ (fun _ w' => I (sim w')));
      [apply (drawLine_inv I everywhere); easy|].
    intros r w1 H1. wp_steps. exact H1.
Qed.

End Unstamped.

(** X9. Nothing ever writes the [updated] property that
    [PhysicsEngine.update] tests: in every state reached from construction
    by the operations, whatever their order and arguments, the test
    [cell.updated === frameCount] is false for the cell read at any
    coordinates and for any frame number. *)
Theorem never_stamped
    (allocates : Z -> bool) (wd ht : Z) (source : nat -> Q) (calls : nat)
    (w0 : World) (os : list Op) :
  new_Simulation allocates wd ht source calls = Some w0 ->
  let s := sim (run (for_each os op) w0) in
  forall x y frame, PhysicsEngine.stamped (getCell x y s) frame = false.
Proof.
  intros H s.
  assert (K : width s = wd /\ height s = ht /\ wf s /\ unstamped s).
  { subst s. apply (ops_keep (fun s => width s = wd /\ height s = ht
                                       /\ wf s /\ unstamped s)).
    - intros o w. apply unstamped_op.
    - pose proof (counted_new _ _ _ _ _ _ H) as [F _].
      apply new_Simulation_sim in H as [cache E].
      rewrite E in *. repeat split; [exact F|].
      unfold unstamped. cbn [grid]. now apply Forall_replicate. }
  destruct K as (W & Hh & F & U). intros x y frame.
  unfold PhysicsEngine.stamped, getCell.
  destruct (out_of_range s x y) eqn:O; [reflexivity|].
  now rewrite (unstamped_lookup _ _ U (index_lt _ _ _ F O)).
Qed.

Lemma never_stamped_witness :
  let os := [OpBrush 1 0 STEAM 0 circle; OpTick; OpTick] in
  match new_Simulation host 3 3 zero_source 0 with
  | Some w0 =>
      let s := sim (run (for_each os op) w0) in
      PhysicsEngine.stamped (getCell 1 0 s) (frameCount s) = false
  | None => False
  end.
Proof.
  intros os.
  destruct (new_Simulation host 3 3 zero_source 0) as [w0|] eqn:E;
    [|vm_compute in E; discriminate].
  exact (never_stamped host 3 3 zero_source 0 w0 os E 1 0 _).
Defined.
